(** * eslint-stylistic: AST utilities and the [dot-location] rule

    A shallow embedding of

    - the AST utility module ([traverse], [traverseReturns],
      [getFirstNodeInLine], [isNodeFirstInLine], [isParenthesized]), and
    - the rule [packages/eslint-plugin-js/rules/dot-location/dot-location.ts]

    together with the properties of both that the specification states.

    The utility module drives the [estraverse] walker over plain JavaScript
    objects and reads node fields by name, so syntax trees are modelled as
    JavaScript values ([JS.value]).  The rule and the token helpers read a
    fixed set of fields of tokens and nodes, which are modelled as records. *)

From Stdlib Require Import ZArith NArith String Ascii DecimalString List Lia Bool Sorted.
From stdpp Require Import base option list strings gmap.
From Equations Require Import Equations.

Local Open Scope string_scope.
Local Open Scope list_scope.
Local Open Scope nat_scope.
Local Set Warnings "-register-all".

(* ===================================================================== *)
(** ** JavaScript values *)
(* ===================================================================== *)

Module JS.

(** The values a syntax tree is made of.  An object is its list of own
    properties in insertion order; reading a property takes the first
    binding of the key.  A number is an integer of the range in which
    JavaScript keeps integers exactly; a character of a string is a code
    unit below 256. *)
Inductive value : Type :=
| VUndefined
| VNull
| VBool (b : bool)
| VNum (n : Z)
| VStr (s : string)
| VArr (elems : list value)
| VObj (props : list (string * value)).

Fixpoint assoc (key : string) (props : list (string * value)) : value :=
  match props with
  | [] => VUndefined
  | (k, v) :: rest => if String.eqb key k then v else assoc key rest
  end.

(** The property name of an index. *)
Definition indexKey (i : N) : string := NilEmpty.string_of_uint (N.to_uint i).

Definition digitValue (c : ascii) : option N :=
  let n := N_of_ascii c in
  if ((48 <=? n) && (n <=? 57))%N then Some (n - 48)%N else None.

Fixpoint decimalValue (acc : N) (s : string) : option N :=
  match s with
  | EmptyString => Some acc
  | String c rest =>
      match digitValue c with
      | Some d => decimalValue (10 * acc + d)%N rest
      | None => None
      end
  end.

(** A property name that is an array index: the decimal notation, with no
    leading zero, of an integer from [0] to [2^32 - 2]. *)
Definition arrayIndex (key : string) : option N :=
  match key with
  | EmptyString => None
  | String c rest =>
      if Ascii.eqb c "0" && negb (String.eqb rest "") then None
      else
        match decimalValue 0 key with
        | Some i => if (i <? 2 ^ 32 - 1)%N then Some i else None
        | None => None
        end
  end.

Definition isArrayIndex (key : string) : bool :=
  match arrayIndex key with Some _ => true | None => false end.

(** The entry at an index, if the index is within the list. *)
Definition entry {A} (i : N) (l : list A) : option A :=
  if (i <? N.of_nat (length l))%N then nth_error l (N.to_nat i) else None.

(** [o[key]] on a value that is not [null] or [undefined]: an own property
    of an object, an entry or the [length] of an array, a character or the
    [length] of a string.  What a value inherits from its prototype reads
    as [undefined] here.  These are functions and prototype objects; the
    fields the code below reads by name ([type], [body], [argument],
    [expression]) are not among them, and of what the walker reads under
    the name of a child field it keeps nodes and the entries of arrays
    only: a function is neither, and a prototype object is no node and
    has no entries. *)
Definition get (key : string) (o : value) : value :=
  match o with
  | VObj props => assoc key props
  | VArr elems =>
      if String.eqb key "length" then VNum (Z.of_nat (length elems))
      else
        match arrayIndex key with
        | Some i => default VUndefined (entry i elems)
        | None => VUndefined
        end
  | VStr s =>
      if String.eqb key "length" then VNum (Z.of_nat (String.length s))
      else
        match arrayIndex key with
        | Some i =>
            match entry i (list_ascii_of_string s) with
            | Some c => VStr (String c EmptyString)
            | None => VUndefined
            end
        | None => VUndefined
        end
  | _ => VUndefined
  end.

(** JavaScript truthiness, as tested by [if (x)], [!x] and [a && b]. *)
Definition truthy (v : value) : bool :=
  match v with
  | VUndefined | VNull => false
  | VBool b => b
  | VNum n => negb (Z.eqb n 0)
  | VStr s => negb (String.eqb s "")
  | VArr _ | VObj _ => true
  end.

(** [v === 'literal'] *)
Definition is_str (v : value) (s : string) : bool :=
  match v with
  | VStr s' => String.eqb s' s
  | _ => false
  end.

Fixpoint dedup (seen : list string) (ks : list string) : list string :=
  match ks with
  | [] => []
  | k :: rest =>
      if existsb (String.eqb k) seen then dedup seen rest
      else k :: dedup (k :: seen) rest
  end.

Fixpoint insertIndex (i : N) (sorted : list N) : list N :=
  match sorted with
  | [] => [i]
  | j :: rest => if (i <=? j)%N then i :: sorted else j :: insertIndex i rest
  end.

(** The names of the first [n] indices. *)
Definition indexKeys (n : nat) : list string :=
  map (fun i => indexKey (N.of_nat i)) (seq 0 n).

(** [Object.keys(o)] on a value that is not [null] or [undefined]: the own
    property names, each once; those that are array indices come first, in
    ascending order, then the others in insertion order.  An array or a
    string has its indices, a number or a boolean has none. *)
Definition Object_keys (o : value) : list string :=
  match o with
  | VObj props =>
      let names := dedup [] (map fst props) in
      map indexKey (fold_right insertIndex [] (omap arrayIndex names))
      ++ List.filter (fun name => negb (isArrayIndex name)) names
  | VArr elems => indexKeys (length elems)
  | VStr s => indexKeys (String.length s)
  | _ => []
  end.

(** [String(v)], which is also how a value is turned into a property name:
    [None] stands for the [TypeError] of an object that has a [toString]
    of its own, which is not a function here. *)
Fixpoint ToString (v : value) : option string :=
  match v with
  | VUndefined => Some "undefined"
  | VNull => Some "null"
  | VBool b => Some (if b then "true" else "false")
  | VNum n => Some (NilEmpty.string_of_int (Z.to_int n))
  | VStr s => Some s
  | VArr elems =>
      (fix join (l : list value) : option string :=
         match l with
         | [] => Some ""
         | x :: rest =>
             match match x with
                   | VUndefined | VNull => Some ""
                   | _ => ToString x
                   end with
             | Some first =>
                 match rest with
                 | [] => Some first
                 | _ :: _ =>
                     match join rest with
                     | Some others => Some (first +:+ "," +:+ others)
                     | None => None
                     end
                 end
             | None => None
             end
         end) elems
  | VObj props =>
      if existsb (fun kv => String.eqb (fst kv) "toString") props then None
      else Some "[object Object]"
  end.

(** Number of arrays and objects in a value; bounds the work of a walk. *)
Fixpoint size (v : value) : nat :=
  match v with
  | VArr elems => S (list_sum (map size elems))
  | VObj props => S (list_sum (map (fun kv => size (snd kv)) props))
  | _ => 0
  end.

(** The sizes of a list of values, added up. *)
Definition sizes (l : list value) : nat := list_sum (map size l).

End JS.

Import JS.

(** How a call ends: normally with the caller's state, with a thrown
    exception, or (for the fuelled walk only) with the step budget used up. *)
Inductive Outcome (St : Type) : Type :=
| Done (s : St)
| Thrown (error : string)
| OutOfFuel.
Arguments Done {St} s.
Arguments Thrown {St} error.
Arguments OutOfFuel {St}.

(* ===================================================================== *)
(** ** The [estraverse] walker *)
(* ===================================================================== *)

Module Estraverse.

(** [estraverse.VisitorOption] *)
Inductive VisitorOption : Type := Break | Skip | Remove.

Definition is_Break (o : option VisitorOption) : bool :=
  match o with Some Break => true | _ => false end.
Definition is_Skip (o : option VisitorOption) : bool :=
  match o with Some Skip => true | _ => false end.

(** [estraverse.VisitorKeys]: the child fields of every node type the
    library knows, in visiting order. *)
Definition VisitorKeys : gmap string (list string) :=
  list_to_map
    [ ("AssignmentExpression", ["left"; "right"]);
      ("AssignmentPattern", ["left"; "right"]);
      ("ArrayExpression", ["elements"]);
      ("ArrayPattern", ["elements"]);
      ("ArrowFunctionExpression", ["params"; "body"]);
      ("AwaitExpression", ["argument"]);
      ("BlockStatement", ["body"]);
      ("BinaryExpression", ["left"; "right"]);
      ("BreakStatement", ["label"]);
      ("CallExpression", ["callee"; "arguments"]);
      ("CatchClause", ["param"; "body"]);
      ("ChainExpression", ["expression"]);
      ("ClassBody", ["body"]);
      ("ClassDeclaration", ["id"; "superClass"; "body"]);
      ("ClassExpression", ["id"; "superClass"; "body"]);
      ("ComprehensionBlock", ["left"; "right"]);
      ("ComprehensionExpression", ["blocks"; "filter"; "body"]);
      ("ConditionalExpression", ["test"; "consequent"; "alternate"]);
      ("ContinueStatement", ["label"]);
      ("DebuggerStatement", []);
      ("DirectiveStatement", []);
      ("DoWhileStatement", ["body"; "test"]);
      ("EmptyStatement", []);
      ("ExportAllDeclaration", ["source"]);
      ("ExportDefaultDeclaration", ["declaration"]);
      ("ExportNamedDeclaration", ["declaration"; "specifiers"; "source"]);
      ("ExportSpecifier", ["exported"; "local"]);
      ("ExpressionStatement", ["expression"]);
      ("ForStatement", ["init"; "test"; "update"; "body"]);
      ("ForInStatement", ["left"; "right"; "body"]);
      ("ForOfStatement", ["left"; "right"; "body"]);
      ("FunctionDeclaration", ["id"; "params"; "body"]);
      ("FunctionExpression", ["id"; "params"; "body"]);
      ("GeneratorExpression", ["blocks"; "filter"; "body"]);
      ("Identifier", []);
      ("IfStatement", ["test"; "consequent"; "alternate"]);
      ("ImportExpression", ["source"]);
      ("ImportDeclaration", ["specifiers"; "source"]);
      ("ImportDefaultSpecifier", ["local"]);
      ("ImportNamespaceSpecifier", ["local"]);
      ("ImportSpecifier", ["imported"; "local"]);
      ("Literal", []);
      ("LabeledStatement", ["label"; "body"]);
      ("LogicalExpression", ["left"; "right"]);
      ("MemberExpression", ["object"; "property"]);
      ("MetaProperty", ["meta"; "property"]);
      ("MethodDefinition", ["key"; "value"]);
      ("ModuleSpecifier", []);
      ("NewExpression", ["callee"; "arguments"]);
      ("ObjectExpression", ["properties"]);
      ("ObjectPattern", ["properties"]);
      ("PrivateIdentifier", []);
      ("Program", ["body"]);
      ("Property", ["key"; "value"]);
      ("PropertyDefinition", ["key"; "value"]);
      ("RestElement", ["argument"]);
      ("ReturnStatement", ["argument"]);
      ("SequenceExpression", ["expressions"]);
      ("SpreadElement", ["argument"]);
      ("Super", []);
      ("SwitchStatement", ["discriminant"; "cases"]);
      ("SwitchCase", ["test"; "consequent"]);
      ("TaggedTemplateExpression", ["tag"; "quasi"]);
      ("TemplateElement", []);
      ("TemplateLiteral", ["quasis"; "expressions"]);
      ("ThisExpression", []);
      ("ThrowStatement", ["argument"]);
      ("TryStatement", ["block"; "handler"; "finalizer"]);
      ("UnaryExpression", ["argument"]);
      ("UpdateExpression", ["argument"]);
      ("VariableDeclaration", ["declarations"]);
      ("VariableDeclarator", ["id"; "init"]);
      ("WhileStatement", ["test"; "body"]);
      ("WithStatement", ["object"; "body"]);
      ("YieldExpression", ["argument"]) ].

(** The part of a [Controller] a callback can change: the caller's own
    state, and the flag that [this.skip()] and [this.break()] set. *)
Record Controller (St : Type) : Type := mkController {
  user : St;
  __state : option VisitorOption
}.
Arguments mkController {St} user __state.
Arguments user {St} c.
Arguments __state {St} c.

(** [Controller.prototype.notify], [skip] and [break]. *)
Definition notify {St} (flag : VisitorOption) (c : Controller St) : Controller St :=
  mkController (user c) (Some flag).
Definition skip {St} (c : Controller St) : Controller St := notify Skip c.
Definition break {St} (c : Controller St) : Controller St := notify Break c.

(** A visitor callback [function (node, parent)]: it runs with the
    controller as [this] and may return a [VisitorOption]. *)
Definition Callback (St : Type) : Type :=
  value -> value -> Controller St -> Controller St * option VisitorOption.

(** The value of [visitor.fallback]: a function, or something else, of
    which only the string ['iteration'] means something to the walker. *)
Inductive Fallback : Type :=
| FallbackFn (f : value -> list string)
| FallbackValue (v : value).

Definition Iteration : Fallback := FallbackValue (VStr "iteration").

(** The visitor object; a property it does not have is [None].  A
    [fallback] that is there but holds [undefined] is
    [Some (FallbackValue VUndefined)]. *)
Record Visitor (St : Type) : Type := mkVisitor {
  enter : option (Callback St);
  leave : option (Callback St);
  fallback : option Fallback;
  keys : option (gmap string (list string))
}.
Arguments mkVisitor {St} enter leave fallback keys.
Arguments enter {St} v.
Arguments leave {St} v.
Arguments fallback {St} v.
Arguments keys {St} v.

(** An [Element] of the work list: the node and the type it is wrapped
    as when it has none of its own. *)
Record Element : Type := mkElement {
  node : value;
  wrap : option string
}.

(** The work list holds elements and the sentinel that marks "leave the
    element on top of the leave list". *)
Inductive WorkItem : Type :=
| Sentinel
| Work (e : Element).

(** [isNode]: an object whose [type] is a string. *)
Definition isNode (v : value) : bool :=
  match v with
  | VObj _ => match get "type" v with VStr _ => true | _ => false end
  | _ => false
  end.

(** [isProperty(nodeType, key)] *)
Definition isProperty (nodeType : value) (key : string) : bool :=
  (is_str nodeType "ObjectExpression" || is_str nodeType "ObjectPattern")
  && String.eqb "properties" key.

(** [node.type || element.wrap] *)
Definition nodeTypeOf (e : Element) : value :=
  if truthy (get "type" (node e)) then get "type" (node e)
  else match wrap e with Some w => VStr w | None => VNull end.

(** The functions every object inherits from [Object.prototype], with
    their [length]. *)
Definition ObjectPrototype : list (string * nat) :=
  [ ("constructor", 1); ("__defineGetter__", 2); ("__defineSetter__", 2);
    ("hasOwnProperty", 1); ("__lookupGetter__", 1); ("__lookupSetter__", 1);
    ("isPrototypeOf", 1); ("propertyIsEnumerable", 1); ("toString", 0);
    ("valueOf", 0); ("toLocaleString", 0) ].

(** What the loop makes of an inherited function [f] found where a list
    of child fields is looked up: it reads [f.length] candidates [f[i]],
    each [undefined], and [node[undefined]] is the property of the node
    that is named [undefined]. *)
Definition inheritedKeys (name : string) : option (list string) :=
  match List.find (fun member => String.eqb (fst member) name) ObjectPrototype with
  | Some (_, arity) => Some (repeat "undefined" arity)
  | None => None
  end.

Section Traverse.
Context {St : Type}.
Variable visitor : Visitor St.

(** [this.__fallback], as [__initialize] sets it: [Object.keys] for
    ['iteration'], the function if [visitor.fallback] is one, and [null]
    otherwise. *)
Definition __fallback : option (value -> list string) :=
  match fallback visitor with
  | Some (FallbackFn f) => Some f
  | Some (FallbackValue v) => if is_str v "iteration" then Some Object_keys else None
  | None => None
  end.

(** [this.__keys[name]], with [this.__keys] the copy of [visitor.keys]
    that has [VisitorKeys] as its prototype: an own entry of
    [visitor.keys], else the entry of [VisitorKeys], else what is
    inherited from [Object.prototype].  The name [__proto__] reads the
    prototype itself, an object without a [length], which gives no
    candidate; the key table that [traverse] hands over has no entry of
    that name. *)
Definition __keys (name : string) : option (list string) :=
  if String.eqb name "__proto__" then Some []
  else
    match match keys visitor with
          | Some own => own !! name
          | None => None
          end with
    | Some ks => Some ks
    | None =>
        match VisitorKeys !! name with
        | Some ks => Some ks
        | None => inheritedKeys name
        end
    end.

(** [Controller.prototype.__execute]: reset the flag, run the callback
    if there is one. *)
Definition __execute (callback : option (Callback St)) (element : Element)
    (leavelist : list Element) (s : St) : Controller St * option VisitorOption :=
  let parent := match leavelist with e :: _ => node e | [] => VUndefined end in
  match callback with
  | Some cb => cb (node element) parent (mkController s None)
  | None => (mkController s None, None)
  end.

(** The elements one candidate field contributes, in visiting order. *)
Definition candidateElements (nodeType : value) (key : string)
    (candidate : value) : list WorkItem :=
  if negb (truthy candidate) then []
  else
    match candidate with
    | VArr elems =>
        flat_map
          (fun x =>
             if negb (truthy x) then []
             else if isProperty nodeType key
                  then [Work (mkElement x (Some "Property"))]
             else if isNode x then [Work (mkElement x None)]
             else [])
          elems
    | _ => if isNode candidate then [Work (mkElement candidate None)] else []
    end.

(** The children the loop pushes for a node.  The source walks
    [candidates] and each array backwards while pushing onto a stack, so
    they are popped in this order. *)
Definition childElements (nodeType : value) (n : value)
    (candidates : list string) : list WorkItem :=
  flat_map (fun key => candidateElements nodeType key (get key n)) candidates.

(** The [while (worklist.length)] loop of [Controller.prototype.traverse];
    the head of a list is the top of the stack.  The check that skips a
    child which is one of its own ancestors is left out: a value here is a
    finite tree.  Looking up [this.__keys[nodeType]] turns the type into a
    property name first, which may throw. *)
Fixpoint loop (fuel : nat) (worklist : list WorkItem) (leavelist : list Element)
    (s : St) : Outcome St :=
  match fuel with
  | O => OutOfFuel
  | S fuel' =>
      match worklist with
      | [] => Done s
      | Sentinel :: worklist' =>
          match leavelist with
          | [] =>
              match leave visitor with
              | Some _ => Thrown "TypeError"
              | None => loop fuel' worklist' [] s
              end
          | element :: leavelist' =>
              let '(c, ret) := __execute (leave visitor) element leavelist' s in
              if is_Break (__state c) || is_Break ret then Done (user c)
              else loop fuel' worklist' leavelist' (user c)
          end
      | Work element :: worklist' =>
          if truthy (node element) then
            let '(c, ret) := __execute (enter visitor) element leavelist s in
            if is_Break (__state c) || is_Break ret then Done (user c)
            else
              let worklist'' := Sentinel :: worklist' in
              let leavelist' := element :: leavelist in
              if is_Skip (__state c) || is_Skip ret
              then loop fuel' worklist'' leavelist' (user c)
              else
                let nodeType := nodeTypeOf element in
                match ToString nodeType with
                | None => Thrown "TypeError"
                | Some name =>
                    let candidates :=
                      match __keys name with
                      | Some ks => Some ks
                      | None =>
                          match __fallback with
                          | Some f => Some (f (node element))
                          | None => None
                          end
                      end in
                    match candidates with
                    | None => Thrown ("Unknown node type " +:+ name +:+ ".")
                    | Some ks =>
                        loop fuel'
                          (childElements nodeType (node element) ks ++ worklist'')
                          leavelist' (user c)
                    end
                end
          else loop fuel' worklist' leavelist s
      end
  end.

(** [estraverse.traverse(root, visitor)] *)
Definition traverse (fuel : nat) (root : value) (s : St) : Outcome St :=
  loop fuel [Work (mkElement root None)] [mkElement VNull None] s.

End Traverse.

End Estraverse.

(* ===================================================================== *)
(** ** The AST utility module *)
(* ===================================================================== *)

Module AstUtil.

Import Estraverse.

(** The [fallback] that [traverse] installs: the own keys of the node
    named [children] or [argument]. *)
Definition defaultFallback (n : value) : list string :=
  List.filter (fun key => String.eqb key "children" || String.eqb key "argument")
              (Object_keys n).

(** The key table [traverse] installs over the visitor's own:
    [Object.assign({}, visitor.keys, { JSXElement: ['children'],
    JSXFragment: ['children'] })].  [Object.assign] assigns each own
    property of [visitor.keys] to the new object; assigning to
    [__proto__] sets the prototype of the new object and makes no
    property of it. *)
Definition optsKeys (visitorKeys : option (gmap string (list string)))
    : gmap string (list string) :=
  <["JSXFragment" := ["children"]]>
    (<["JSXElement" := ["children"]]> (delete "__proto__" (default ∅ visitorKeys))).

(** The [opts] object built by [traverse]:
    [Object.assign({}, { fallback }, visitor)] with [keys] replaced.  A
    [fallback] of the visitor's own is copied over the built-in one
    whatever it holds. *)
Definition opts {St} (visitor : Visitor St) : Visitor St :=
  mkVisitor
    (enter visitor)
    (leave visitor)
    (match fallback visitor with
     | Some f => Some f
     | None => Some (FallbackFn defaultFallback)
     end)
    (Some (optsKeys (keys visitor))).

(** [traverse(ASTnode, visitor)]: the wrapper for [estraverse.traverse]. *)
Definition traverse {St} (fuel : nat) (ASTnode : value) (visitor : Visitor St)
    (s : St) : Outcome St :=
  Estraverse.traverse (opts visitor) fuel ASTnode s.

(** The caller's [onReturn(returnValue, breakTraverse)]: it updates the
    caller's state and either calls [breakTraverse] or does not. *)
Definition OnReturn (St : Type) : Type := value -> St -> St * bool.

(** The [enter] callback [traverseReturns] hands to [traverse]. *)
Definition returnsEnter {St} (onReturn : OnReturn St) : Callback St :=
  fun n _parent this =>
    let nodeType := get "type" n in
    if is_str nodeType "ReturnStatement" then
      let this := skip this in
      let '(s, called) := onReturn (get "argument" n) (user this) in
      let this := mkController s (__state this) in
      (if called then break this else this, None)
    else if is_str nodeType "BlockStatement"
         || is_str nodeType "IfStatement"
         || is_str nodeType "ForStatement"
         || is_str nodeType "WhileStatement"
         || is_str nodeType "SwitchStatement"
         || is_str nodeType "SwitchCase"
    then (this, None)
    else (skip this, None).

Definition returnsVisitor {St} (onReturn : OnReturn St) : Visitor St :=
  mkVisitor (Some (returnsEnter onReturn)) None None None.

(** [traverseReturns(ASTNode, context, onReturn)]; [context] is not used
    by the body.  Reading [ASTNode.type] throws when [ASTNode] is [null]
    or [undefined].  The no-op [() => {}] given to [onReturn] in the first
    two cases makes its second result irrelevant there. *)
Definition traverseReturns {St} (fuel : nat) (ASTNode : value)
    (onReturn : OnReturn St) (s : St) : Outcome St :=
  match ASTNode with
  | VUndefined | VNull => Thrown "TypeError"
  | _ =>
      let nodeType := get "type" ASTNode in
      if is_str nodeType "ReturnStatement" then
        Done (fst (onReturn (get "argument" ASTNode) s))
      else if is_str nodeType "ArrowFunctionExpression"
              && truthy (get "expression" ASTNode) then
        Done (fst (onReturn (get "body" ASTNode) s))
      else if negb (is_str nodeType "FunctionExpression")
              && negb (is_str nodeType "FunctionDeclaration")
              && negb (is_str nodeType "ArrowFunctionExpression")
              && negb (is_str nodeType "MethodDefinition") then
        Done s
      else
        traverse fuel (get "body" ASTNode) (returnsVisitor onReturn) s
  end.

End AstUtil.

(* ===================================================================== *)
(** ** Return points of a function body *)
(* ===================================================================== *)

(** What [traverseReturns] is specified to report, written as a recursive
    function over the tree rather than as a walk with a work list. *)
Module ReturnPoints.

Import Estraverse AstUtil.

(** The node types [traverseReturns] looks through, with the child fields
    of each in visiting order. *)
Definition transparentKeys (t : string) : option (list string) :=
  if String.eqb t "BlockStatement" then Some ["body"]
  else if String.eqb t "IfStatement" then Some ["test"; "consequent"; "alternate"]
  else if String.eqb t "ForStatement" then Some ["init"; "test"; "update"; "body"]
  else if String.eqb t "WhileStatement" then Some ["test"; "body"]
  else if String.eqb t "SwitchStatement" then Some ["discriminant"; "cases"]
  else if String.eqb t "SwitchCase" then Some ["test"; "consequent"]
  else None.

(** The nodes held by one field: the field itself, or the entries of an
    array. *)
Definition nodesOf (c : value) : list value :=
  match c with
  | VArr elems => List.filter isNode elems
  | _ => if isNode c then [c] else []
  end.

Section Through.
(** [through t] is [Some ks] when nodes of type [t] are looked through
    and [ks] are their child fields. *)
Variable through : string -> option (list string).

Definition childNodes (v : value) : list value :=
  match get "type" v with
  | VStr t =>
      match through t with
      | Some ks => flat_map (fun key => nodesOf (get key v)) ks
      | None => []
      end
  | _ => []
  end.

(** The return statements under [v], in pre-order, that are reached
    through looked-through nodes only; a return statement is not looked
    into.  [depth] bounds the nesting. *)
Fixpoint returnsUpTo (depth : nat) (v : value) : list value :=
  match depth with
  | O => []
  | S depth' =>
      if is_str (get "type" v) "ReturnStatement" then [v]
      else flat_map (returnsUpTo depth') (childNodes v)
  end.

Definition returnsThrough (v : value) : list value := returnsUpTo (size v) v.

(** [reaches v r]: the return statement [r] lies under [v], with only
    looked-through nodes from [v] down to it. *)
Inductive reaches : value -> value -> Prop :=
| reaches_return r :
    is_str (get "type" r) "ReturnStatement" = true ->
    reaches r r
| reaches_child v t ks key c r :
    get "type" v = VStr t ->
    String.eqb t "ReturnStatement" = false ->
    through t = Some ks ->
    In key ks ->
    In c (nodesOf (get key v)) ->
    reaches c r ->
    reaches v r.
End Through.

(** The return points of a body as [traverseReturns] sees them. *)
Definition returnPoints (body : value) : list value :=
  returnsThrough transparentKeys body.

(** Running [onReturn] over a list of returned values, in order, up to
    and including the first call that stops. *)
Fixpoint forEachUntil {St} (onReturn : OnReturn St) (returned : list value)
    (s : St) : St * bool :=
  match returned with
  | [] => (s, false)
  | r :: rest =>
      let '(s', stop) := onReturn r s in
      if stop then (s', true) else forEachUntil onReturn rest s'
  end.

(** A caller that records every value it is handed and never stops. *)
Definition record : OnReturn (list value) :=
  fun returnValue seen => (seen ++ [returnValue], false).

(** [onReturn] with the values it is called with recorded next to its own
    state. *)
Definition traced {St} (onReturn : OnReturn St) : OnReturn (St * list value) :=
  fun returnValue '(s, calls) =>
    let '(s', stop) := onReturn returnValue s in
    ((s', calls ++ [returnValue]), stop).

(** The calls that make [traverseReturns] walk the body: every accepted
    type except an arrow function with an expression body. *)
Definition walksBody (ASTNode : value) : bool :=
  let nodeType := get "type" ASTNode in
  (is_str nodeType "FunctionExpression"
   || is_str nodeType "FunctionDeclaration"
   || is_str nodeType "ArrowFunctionExpression"
   || is_str nodeType "MethodDefinition")
  && negb (is_str nodeType "ArrowFunctionExpression"
           && truthy (get "expression" ASTNode)).

(** Steps that are always enough for the walk of [body]. *)
Definition walkFuel (body : value) : nat := 2 * size body + 3.

(** The options [traverseReturns] makes [traverse] hand to the walker. *)
Definition walkVisitor {St} (onReturn : OnReturn St) : Visitor St :=
  opts (returnsVisitor onReturn).

(** A child as the loop pushes it. *)
Definition pushed (c : value) : WorkItem := Work (mkElement c None).

(** What is left of a walk after some return points have been handled:
    nothing if one of the calls asked to stop, else the rest of the work
    list. *)
Definition resume {St} (onReturn : OnReturn St) (fuel : nat)
    (worklist : list WorkItem) (leavelist : list Element) (r : St * bool)
    : Outcome St :=
  if snd r then Done (fst r)
  else loop (walkVisitor onReturn) fuel worklist leavelist (fst r).

(** [node.range]: the offsets where a node starts and ends. *)
Definition rangeOf (v : value) : option (Z * Z) :=
  match get "range" v with
  | VArr [VNum from; VNum to] => Some (from, to)
  | _ => None
  end.

(** The node has a range, and the range is not empty. *)
Definition properRange (v : value) : bool :=
  match rangeOf v with
  | Some (from, to) => (from <? to)%Z
  | None => false
  end.

(** [c] lies within [v] in the source. *)
Definition within (c v : value) : bool :=
  match rangeOf c, rangeOf v with
  | Some (from, to), Some (from', to') => (from' <=? from)%Z && (to <=? to')%Z
  | _, _ => false
  end.

(** [a] ends before [b] starts in the source. *)
Definition precedes (a b : value) : bool :=
  match rangeOf a, rangeOf b with
  | Some (_, to), Some (from, _) => (to <=? from)%Z
  | _, _ => false
  end.

(** Each node of the list ends before the next one starts. *)
Fixpoint inOrder (l : list value) : bool :=
  match l with
  | a :: (b :: _) as rest => precedes a b && inOrder rest
  | _ => true
  end.

(** The looked-through part of a tree is laid out as a parser lays it
    out: every node has a proper range, and the children of a
    looked-through node lie within it, one after the other in the order of
    its child fields.  [depth] bounds the nesting. *)
Fixpoint laidOutUpTo (depth : nat) (v : value) : bool :=
  match depth with
  | O => true
  | S depth' =>
      properRange v
      && forallb (fun c => within c v) (childNodes transparentKeys v)
      && inOrder (childNodes transparentKeys v)
      && forallb (laidOutUpTo depth') (childNodes transparentKeys v)
  end.

Definition laidOut (v : value) : bool := laidOutUpTo (size v) v.

(** C1 as first stated, "every return statement reachable without
    crossing into a nested function or method definition": every node type
    the walker knows is looked through, except the function forms. *)
Definition throughAllButFunctions (t : string) : option (list string) :=
  if String.eqb t "FunctionDeclaration" || String.eqb t "FunctionExpression"
     || String.eqb t "ArrowFunctionExpression" || String.eqb t "MethodDefinition"
  then None
  else VisitorKeys !! t.

(** The node types the specification calls control-flow-transparent:
    "block, if, loops, switch, switch-case", with every loop form among
    the loops.  These are the looked-through types with [do-while],
    [for-in] and [for-of] added. *)
Definition throughAllLoops (t : string) : option (list string) :=
  if String.eqb t "DoWhileStatement" then Some ["body"; "test"]
  else if String.eqb t "ForInStatement" then Some ["left"; "right"; "body"]
  else if String.eqb t "ForOfStatement" then Some ["left"; "right"; "body"]
  else transparentKeys t.

(** The loop forms that the [enter] callback of [traverseReturns] does not
    list. *)
Definition isUnlistedLoop (v : value) : bool :=
  is_str (get "type" v) "DoWhileStatement"
  || is_str (get "type" v) "ForInStatement"
  || is_str (get "type" v) "ForOfStatement".

(** No loop of an unlisted form is met on the way down from [v] through
    looked-through nodes.  [depth] bounds the nesting. *)
Fixpoint listedLoopsUpTo (depth : nat) (v : value) : bool :=
  match depth with
  | O => true
  | S depth' =>
      negb (isUnlistedLoop v)
      && forallb (listedLoopsUpTo depth') (childNodes transparentKeys v)
  end.

Definition listedLoopsOnly (v : value) : bool := listedLoopsUpTo (size v) v.

End ReturnPoints.

(* ===================================================================== *)
(** ** The host: tokens, source code, fixes *)
(* ===================================================================== *)

(** The part of ESLint the two modules call.  Offsets, lines and columns
    are natural numbers; a character of a text is a code unit below 256,
    and offsets count code units. *)
Module ESLint.

Record Position : Type := mkPosition { line : nat; column : nat }.

(** [loc]: where a token or node starts and ends. *)
Record SourceLocation : Type := mkLoc { start : Position; end_ : Position }.

Module Token.
Record t : Type := mk {
  type : string;
  value : string;
  range : nat * nat;
  loc : SourceLocation
}.
End Token.

Module Node.
Record t : Type := mk {
  type : string;
  range : nat * nat;
  loc : SourceLocation
}.
End Node.

(** [sourceCode]: the text and its tokens, comments left out, in source
    order. *)
Record SourceCode : Type := mkSourceCode {
  text : string;
  tokens : list Token.t
}.

(** [sourceCode.getTokenBefore(nodeOrToken)], given the range of the node
    or token: the last token that starts before it, [null] if there is
    none. *)
Definition getTokenBefore (sourceCode : SourceCode) (range : nat * nat)
    : option Token.t :=
  last (List.filter (fun t => fst (Token.range t) <? fst range) (tokens sourceCode)).

(** The fix objects a [fixer] makes: replace [range] of the text by
    [text]. *)
Module RuleFixer.
Record Fix : Type := mkFix { range : nat * nat; text : string }.

Definition insertTextAfter (nodeOrToken : nat * nat) (text : string) : Fix :=
  mkFix (snd nodeOrToken, snd nodeOrToken) text.
Definition insertTextBefore (nodeOrToken : nat * nat) (text : string) : Fix :=
  mkFix (fst nodeOrToken, fst nodeOrToken) text.
Definition remove (nodeOrToken : nat * nat) : Fix :=
  mkFix nodeOrToken "".
End RuleFixer.

(** How the host turns the fixes of one report into new text: it sorts
    them by range, joins them with the text between them into one
    replacement, and applies that.  Overlapping fixes are refused. *)
Module SourceCodeFixer.
Import RuleFixer.

Definition slice (from to : nat) (s : string) : string :=
  String.substring from (to - from) s.

(** [a.range[0] - b.range[0] || a.range[1] - b.range[1]] is positive *)
Definition after (a b : Fix) : bool :=
  (fst (range b) <? fst (range a))
  || ((fst (range a) =? fst (range b)) && (snd (range b) <? snd (range a))).

Fixpoint insertSorted (x : Fix) (sorted : list Fix) : list Fix :=
  match sorted with
  | [] => [x]
  | y :: rest => if after y x then x :: y :: rest else y :: insertSorted x rest
  end.

(** A stable sort by range. *)
Definition sortFixes (fixes : list Fix) : list Fix :=
  fold_left (fun sorted x => insertSorted x sorted) fixes [].

Fixpoint joinFixes (original : string) (lastPos : nat) (fixes : list Fix)
    : option (string * nat) :=
  match fixes with
  | [] => Some ("", lastPos)
  | f :: rest =>
      if fst (range f) <? lastPos then None
      else
        match joinFixes original (snd (range f)) rest with
        | Some (joined, lastPos') =>
            Some (slice lastPos (fst (range f)) original +:+ text f +:+ joined, lastPos')
        | None => None
        end
  end.

(** The text after the fixes of one report are applied; [None] when
    there is no fix or the fixes overlap. *)
Definition applyFixes (original : string) (fixes : list Fix) : option string :=
  match sortFixes fixes with
  | [] => None
  | first :: rest =>
      let from := fst (range first) in
      match joinFixes original from (first :: rest) with
      | Some (joined, to) =>
          Some (slice 0 from original +:+ joined
                +:+ slice to (String.length original) original)
      | None => None
      end
  end.
End SourceCodeFixer.

End ESLint.

(* ===================================================================== *)
(** ** The AST utility module: token helpers *)
(* ===================================================================== *)

Module AstUtilTokens.

Import ESLint.

(** [s.split(sep)] for a one-character separator. *)
Fixpoint split (sep : ascii) (s : string) : list string :=
  match s with
  | EmptyString => [EmptyString]
  | String c rest =>
      if Ascii.eqb c sep then EmptyString :: split sep rest
      else
        match split sep rest with
        | piece :: pieces => String c piece :: pieces
        | [] => [String c EmptyString]
        end
  end.

(** The regular expression class [\s] on code units below 256: tab, line
    feed, vertical tab, form feed, carriage return, space and no-break
    space. *)
Definition isWhitespace (c : ascii) : bool :=
  let n := nat_of_ascii c in
  (n =? 32) || ((9 <=? n) && (n <=? 13)) || (n =? 160).

(** [/^\s*$/.test(s)] *)
Fixpoint isBlank (s : string) : bool :=
  match s with
  | EmptyString => true
  | String c rest => isWhitespace c && isBlank rest
  end.

Definition newline : ascii := ascii_of_nat 10.

(** The [while] condition of [getFirstNodeInLine]:
    [token.type === 'JSXText' && lines && /^\s*$/.test(lines[lines.length - 1])]
    with [lines = token.value.split('\n')]. *)
Definition isBlankJSXText (token : Token.t) : bool :=
  String.eqb (Token.type token) "JSXText"
  && match last (split newline (Token.value token)) with
     | Some lastLine => isBlank lastLine
     | None => false
     end.

(** Keeps the equation of a matched expression at hand. *)
Definition inspect {A} (a : A) : {b : A | a = b} := exist _ a eq_refl.

(** The [do ... while] loop of [getFirstNodeInLine], from the range of the
    current [token].  [getTokenBefore(token)!] may be [null]; reading
    [token.type] then throws a [TypeError]. *)
Equations? firstNodeInLineFrom (sourceCode : SourceCode) (range : nat * nat)
    : Outcome Token.t by wf (fst range) lt :=
  firstNodeInLineFrom sourceCode range with inspect (getTokenBefore sourceCode range) := {
    | exist _ None _ => Thrown "TypeError";
    | exist _ (Some token) Hbefore =>
        if isBlankJSXText token
        then firstNodeInLineFrom sourceCode (Token.range token)
        else Done token }.
Proof.
  unfold getTokenBefore in Hbefore.
  apply last_Some in Hbefore as [before Heq].
  assert (Hin : In token (before ++ [token])).
  { apply in_or_app. right. left. reflexivity. }
  rewrite <- Heq in Hin.
  apply filter_In in Hin as [_ Hlt]. apply Nat.ltb_lt in Hlt. exact Hlt.
Qed.

(** [getFirstNodeInLine(context, node)] *)
Definition getFirstNodeInLine (sourceCode : SourceCode) (node : Node.t)
    : Outcome Token.t :=
  firstNodeInLineFrom sourceCode (Node.range node).

(** [isNodeFirstInLine(context, node)].  The value [getFirstNodeInLine]
    returns is a token, so of [token ? token.loc.end.line : -1] only the
    first arm is taken. *)
Definition isNodeFirstInLine (sourceCode : SourceCode) (node : Node.t)
    : Outcome bool :=
  match getFirstNodeInLine sourceCode node with
  | Done token =>
      let startLine := line (start (Node.loc node)) in
      let endLine := line (end_ (Token.loc token)) in
      Done (negb (startLine =? endLine))
  | Thrown e => Thrown e
  | OutOfFuel => OutOfFuel
  end.

End AstUtilTokens.

(* ===================================================================== *)
(** ** The [dot-location] rule *)
(* ===================================================================== *)

Module DotLocation.

Import ESLint.

(** Modelled from the spec: [isTokenOnSameLine] of [utils/ast-utils] is
    not among the sources.  "[sameLine(a, b)]: true iff [a]'s end line
    equals [b]'s start line."  The rule hands it a [dotToken] that may be
    [null]; a missing token has no end line, so it is on no line of [b]. *)
Definition isTokenOnSameLine (left : option SourceLocation)
    (right : SourceLocation) : bool :=
  match left with
  | Some l => line (end_ l) =? line (start right)
  | None => false
  end.

Definition isDigit (c : ascii) : bool :=
  let n := nat_of_ascii c in (48 <=? n) && (n <=? 57).
Definition isOctalDigit (c : ascii) : bool :=
  let n := nat_of_ascii c in (48 <=? n) && (n <=? 55).

(** [(?:_?\d)*$] *)
Fixpoint separatedDigits (s : string) : bool :=
  match s with
  | EmptyString => true
  | String c rest =>
      if isDigit c then separatedDigits rest
      else if Ascii.eqb c "_" then
        match rest with
        | String d rest' => isDigit d && separatedDigits rest'
        | EmptyString => false
        end
      else false
  end.

(** [\d*$] *)
Fixpoint digits (s : string) : bool :=
  match s with
  | EmptyString => true
  | String c rest => isDigit c && digits rest
  end.

(** [[0-7]*[89]\d*$] *)
Fixpoint octalsThenDecimal (s : string) : bool :=
  match s with
  | EmptyString => false
  | String c rest =>
      if isOctalDigit c then octalsThenDecimal rest
      else (Ascii.eqb c "8" || Ascii.eqb c "9") && digits rest
  end.

(** Modelled from the spec: [isDecimalIntegerNumericToken] of
    [utils/ast-utils] is not among the sources.  "A bare decimal-integer
    numeric literal (e.g. [1])", "without existing decimal point/exponent",
    with hex, octal and bigint forms "not requiring a space": a [Numeric]
    token whose text is [0], or starts with [1]-[9] and goes on with digits
    (each possibly after one [_]), or starts with [0] and has an [8] or [9]
    before any other non-octal character. *)
Definition isDecimalIntegerNumericToken (token : Token.t) : bool :=
  String.eqb (Token.type token) "Numeric"
  && match Token.value token with
     | EmptyString => false
     | String c rest =>
         if Ascii.eqb c "0"
         then match rest with
              | EmptyString => true
              | _ => octalsThenDecimal rest
              end
         else isDigit c && separatedDigits rest
     end.

(** The part of a [MemberExpression] node the rule reads. *)
Module MemberExpression.
Record t : Type := mk {
  type : string;
  computed : bool;
  property : Node.t
}.
End MemberExpression.

Inductive MessageId : Type :=
| expectedDotAfterObject
| expectedDotBeforeProperty.

(** The descriptor handed to [context.report]; [fix_] holds what the
    generator [fix] yields, in order. *)
Record Report : Type := mkReport {
  node : MemberExpression.t;
  loc : SourceLocation;
  messageId : MessageId;
  fix_ : list RuleFixer.Fix
}.

(** The rule context: the options, the source code, and the reports made
    so far. *)
Record Context : Type := mkContext {
  options : list string;
  sourceCode : SourceCode;
  reports : list Report
}.

(** [context.report(descriptor)] *)
Definition report (descriptor : Report) (context : Context) : Context :=
  mkContext (options context) (sourceCode context) (reports context ++ [descriptor]).

(** [const config = context.options[0]] and
    [const onObject = config === 'object' || !config] *)
Definition onObject (context : Context) : bool :=
  match head (options context) with
  | Some config => String.eqb config "object" || String.eqb config ""
  | None => true
  end.

(** [checkDotLocation(node)] *)
Definition checkDotLocation (context : Context) (node : MemberExpression.t)
    : Context :=
  let property := MemberExpression.property node in
  let dotToken := getTokenBefore (sourceCode context) (Node.range property) in
  match onObject context, dotToken with
  | true, Some dotToken =>
      let tokenBeforeDot :=
        getTokenBefore (sourceCode context) (Token.range dotToken) in
      match tokenBeforeDot with
      | Some tokenBeforeDot =>
          if negb (isTokenOnSameLine (Some (Token.loc tokenBeforeDot))
                                     (Token.loc dotToken))
          then
            report
              (mkReport node (Token.loc dotToken) expectedDotAfterObject
                 [ (if String.prefix "." (Token.value dotToken)
                       && isDecimalIntegerNumericToken tokenBeforeDot
                    then RuleFixer.insertTextAfter (Token.range tokenBeforeDot)
                           (" " +:+ Token.value dotToken)
                    else RuleFixer.insertTextAfter (Token.range tokenBeforeDot)
                           (Token.value dotToken));
                   RuleFixer.remove (Token.range dotToken) ])
              context
          else context
      | None => context
      end
  | _, _ =>
      if negb (isTokenOnSameLine (option_map Token.loc dotToken) (Node.loc property))
      then
        match dotToken with
        | Some dotToken =>
            report
              (mkReport node (Token.loc dotToken) expectedDotBeforeProperty
                 [ RuleFixer.remove (Token.range dotToken);
                   RuleFixer.insertTextBefore (Node.range property)
                     (Token.value dotToken) ])
              context
        | None => context
        end
      else context
  end.

(** [checkNode(node)] *)
Definition checkNode (context : Context) (node : MemberExpression.t) : Context :=
  if String.eqb (MemberExpression.type node) "MemberExpression"
     && negb (MemberExpression.computed node)
  then checkDotLocation context node
  else context.

(** The text the host produces from a report's fix. *)
Definition fixedText (context : Context) (r : Report) : option string :=
  SourceCodeFixer.applyFixes (text (sourceCode context)) (fix_ r).

End DotLocation.


(* ===================================================================== *)
(** ** Examples: trees, token streams, rule contexts *)
(* ===================================================================== *)

Module Examples.

Import Estraverse AstUtil ReturnPoints.

Definition literal (n : Z) : value :=
  VObj [("type", VStr "Literal"); ("value", VNum n)].
Definition identifier (name : string) : value :=
  VObj [("type", VStr "Identifier"); ("name", VStr name)].
Definition returnStatement (argument : value) : value :=
  VObj [("type", VStr "ReturnStatement"); ("argument", argument)].
Definition blockStatement (body : list value) : value :=
  VObj [("type", VStr "BlockStatement"); ("body", VArr body)].
Definition ifStatement (test consequent alternate : value) : value :=
  VObj [("type", VStr "IfStatement"); ("test", test);
        ("consequent", consequent); ("alternate", alternate)].
Definition whileStatement (test body : value) : value :=
  VObj [("type", VStr "WhileStatement"); ("test", test); ("body", body)].
Definition doWhileStatement (body test : value) : value :=
  VObj [("type", VStr "DoWhileStatement"); ("body", body); ("test", test)].
Definition tryStatement (block handler finalizer : value) : value :=
  VObj [("type", VStr "TryStatement"); ("block", block);
        ("handler", handler); ("finalizer", finalizer)].
Definition functionDeclaration (name : string) (params : list value)
    (body : value) : value :=
  VObj [("type", VStr "FunctionDeclaration"); ("id", identifier name);
        ("params", VArr params); ("body", body)].
Definition functionExpression (params : list value) (body : value) : value :=
  VObj [("type", VStr "FunctionExpression"); ("id", VNull);
        ("params", VArr params); ("body", body)].
Definition methodDefinition (name : string) (fn : value) : value :=
  VObj [("type", VStr "MethodDefinition"); ("key", identifier name);
        ("value", fn); ("kind", VStr "method");
        ("computed", VBool false); ("static", VBool false)].

(** A node with its [range]. *)
Definition ranged (from to : Z) (v : value) : value :=
  match v with
  | VObj props => VObj (props ++ [("range", VArr [VNum from; VNum to])])
  | _ => v
  end.

(** [function f(x) { if (x) return 1; return 2; }], with the range of
    every node from the body down. *)
Definition twoReturns : value :=
  functionDeclaration "f" [identifier "x"]
    (ranged 14 44
       (blockStatement
          [ ranged 16 32
              (ifStatement (ranged 20 21 (identifier "x"))
                 (ranged 23 32 (returnStatement (ranged 30 31 (literal 1))))
                 VNull);
            ranged 33 42 (returnStatement (ranged 40 41 (literal 2))) ])).

(** [function f() { function g() { return 1; } return 2; }] *)
Definition nestedFunction : value :=
  functionDeclaration "f" []
    (blockStatement
       [ functionDeclaration "g" [] (blockStatement [returnStatement (literal 1)]);
         returnStatement (literal 2) ]).

(** [function f() { try { return 1; } finally { } }] *)
Definition returnInTry : value :=
  functionDeclaration "f" []
    (blockStatement
       [ tryStatement (blockStatement [returnStatement (literal 1)]) VNull
           (blockStatement []) ]).

(** [function f() { do { return 1; } while (x) }] *)
Definition returnInDoWhile : value :=
  functionDeclaration "f" []
    (blockStatement
       [ doWhileStatement (blockStatement [returnStatement (literal 1)])
           (identifier "x") ]).

(** [function f() { while (x) { return 1; } }] *)
Definition returnInWhile : value :=
  functionDeclaration "f" []
    (blockStatement
       [ whileStatement (identifier "x")
           (blockStatement [returnStatement (literal 1)]) ]).

(** The method [m() { return 1; }] of [class A { m() { return 1; } }]. *)
Definition methodWithReturn : value :=
  methodDefinition "m"
    (functionExpression [] (blockStatement [returnStatement (literal 1)])).

(** [function f() { return 1; return 2; return 3; }] *)
Definition threeReturns : value :=
  functionDeclaration "f" []
    (blockStatement
       [ returnStatement (literal 1); returnStatement (literal 2);
         returnStatement (literal 3) ]).

(** A caller that counts its calls and stops at the value [2]. *)
Definition stopAtTwo : OnReturn nat :=
  fun returnValue calls =>
    (S calls, match get "value" returnValue with VNum 2 => true | _ => false end).

(** A visitor with key entries of its own, one of them for [JSXElement]. *)
Definition visitorWithKeys : Visitor unit :=
  mkVisitor None None None
    (Some (<["JSXElement" := ["openingElement"]]>
             (<["Literal" := ["raw"]]> ∅))).

(** A visitor that writes down the nodes it enters, with key entries of
    its own for the types [Wrapper] and [__proto__]. *)
Definition noteNode : Callback (list value) :=
  fun n _parent this => (mkController (user this ++ [n]) (__state this), None).
Definition visitorWithProtoKey : Visitor (list value) :=
  mkVisitor (Some noteNode) None None
    (Some (<["__proto__" := ["inner"]]> (<["Wrapper" := ["inner"]]> ∅))).

(** A node of the given type that holds an identifier under [inner]. *)
Definition wrapping (type : string) : value :=
  VObj [("type", VStr type); ("inner", identifier "x")].

Import ESLint DotLocation AstUtilTokens.

Definition nl : string := String newline EmptyString.

(** A token on one line. *)
Definition token (type value : string) (from to line column : nat) : Token.t :=
  Token.mk type value (from, to)
    (mkLoc (mkPosition line column) (mkPosition line (column + (to - from)))).

Definition memberExpression (computed : bool) (from to line column : nat)
    : MemberExpression.t :=
  MemberExpression.mk "MemberExpression" computed
    (Node.mk "Identifier" (from, to)
       (mkLoc (mkPosition line column) (mkPosition line (column + (to - from))))).

(** [foo], a line break, [.bar()] *)
Definition dotOnPropertyLine : SourceCode :=
  mkSourceCode ("foo" +:+ nl +:+ ".bar()")
    [ token "Identifier" "foo" 0 3 1 0; token "Punctuator" "." 4 5 2 0;
      token "Identifier" "bar" 5 8 2 1; token "Punctuator" "(" 8 9 2 4;
      token "Punctuator" ")" 9 10 2 5 ].
Definition dotOnPropertyLine_member : MemberExpression.t :=
  memberExpression false 5 8 2 1.

(** [foo.], a line break, [bar()] *)
Definition dotOnObjectLine : SourceCode :=
  mkSourceCode ("foo." +:+ nl +:+ "bar()")
    [ token "Identifier" "foo" 0 3 1 0; token "Punctuator" "." 3 4 1 3;
      token "Identifier" "bar" 5 8 2 0; token "Punctuator" "(" 8 9 2 3;
      token "Punctuator" ")" 9 10 2 4 ].
Definition dotOnObjectLine_member : MemberExpression.t :=
  memberExpression false 5 8 2 0.

(** [1], a line break, [.toString()] *)
Definition numberThenDot : SourceCode :=
  mkSourceCode ("1" +:+ nl +:+ ".toString()")
    [ token "Numeric" "1" 0 1 1 0; token "Punctuator" "." 2 3 2 0;
      token "Identifier" "toString" 3 11 2 1; token "Punctuator" "(" 11 12 2 9;
      token "Punctuator" ")" 12 13 2 10 ].
Definition numberThenDot_member : MemberExpression.t :=
  memberExpression false 3 11 2 1.

(** [(1)], a line break, [.toString()] *)
Definition parenthesizedNumberThenDot : SourceCode :=
  mkSourceCode ("(1)" +:+ nl +:+ ".toString()")
    [ token "Punctuator" "(" 0 1 1 0; token "Numeric" "1" 1 2 1 1;
      token "Punctuator" ")" 2 3 1 2; token "Punctuator" "." 4 5 2 0;
      token "Identifier" "toString" 5 13 2 1; token "Punctuator" "(" 13 14 2 9;
      token "Punctuator" ")" 14 15 2 10 ].
Definition parenthesizedNumberThenDot_member : MemberExpression.t :=
  memberExpression false 5 13 2 1.

(** [obj], a line break, [[prop]]: a computed access. *)
Definition computedAccess : SourceCode :=
  mkSourceCode ("obj" +:+ nl +:+ "[prop]")
    [ token "Identifier" "obj" 0 3 1 0; token "Punctuator" "[" 4 5 2 0;
      token "Identifier" "prop" 5 9 2 1; token "Punctuator" "]" 9 10 2 5 ].
Definition computedAccess_member : MemberExpression.t :=
  memberExpression true 5 9 2 1.

(** The program [<a/>]; its [JSXElement] starts the token stream. *)
Definition jsxAtStart : SourceCode :=
  mkSourceCode "<a/>"
    [ token "Punctuator" "<" 0 1 1 0; token "JSXIdentifier" "a" 1 2 1 1;
      token "Punctuator" "/" 2 3 1 2; token "Punctuator" ">" 3 4 1 3 ].
Definition jsxAtStart_element : Node.t :=
  Node.mk "JSXElement" (0, 4) (mkLoc (mkPosition 1 0) (mkPosition 1 4)).
Definition jsxAtStart_name : Node.t :=
  Node.mk "JSXIdentifier" (1, 2) (mkLoc (mkPosition 1 1) (mkPosition 1 2)).

End Examples.


(* ===================================================================== *)
(** ** The walk of [traverse] as a recursive function *)
(* ===================================================================== *)

(** What [traverse] does for any visitor, written without a work list:
    enter the node, then its children in order, then leave it. *)
Module PreOrder.

Import Estraverse AstUtil.

(** The result of a step that may throw. *)
Inductive Try (A : Type) : Type :=
| Ok (a : A)
| Raise (error : string).
Arguments Ok {A} a.
Arguments Raise {A} error.

(** How the visit of a part of the tree ends: the walk goes on, or a
    callback has asked to break, or the walker has thrown. *)
Inductive Visit (St : Type) : Type :=
| GoOn (s : St)
| Broke (s : St)
| Threw (error : string).
Arguments GoOn {St} s.
Arguments Broke {St} s.
Arguments Threw {St} error.

(** Running a step over a list, in order, as long as the walk goes on. *)
Fixpoint foldVisit {A St} (step : A -> St -> Visit St) (l : list A) (s : St)
    : Visit St :=
  match l with
  | [] => GoOn s
  | x :: rest =>
      match step x s with
      | GoOn s' => foldVisit step rest s'
      | stopped => stopped
      end
  end.

(** The child elements one field holds, as the walker wraps them. *)
Definition candidateNodes (nodeType : value) (key : string)
    (candidate : value) : list Element :=
  if negb (truthy candidate) then []
  else
    match candidate with
    | VArr elems =>
        flat_map
          (fun x =>
             if negb (truthy x) then []
             else if isProperty nodeType key then [mkElement x (Some "Property")]
             else if isNode x then [mkElement x None]
             else [])
          elems
    | _ => if isNode candidate then [mkElement candidate None] else []
    end.

(** The child fields [traverse] makes the walker use for an element.  The
    type of the node, turned into a property name, is looked up in
    [opts.keys], then in [VisitorKeys], then in [Object.prototype]; a name
    not found there is left to the fallback: the visitor's own if it has
    the property, else the one [traverse] installs.  An own fallback that
    is neither a function nor ['iteration'] leaves the walker without one,
    and it throws. *)
Definition childKeys {St} (visitor : Visitor St) (e : Element)
    : Try (list string) :=
  match ToString (nodeTypeOf e) with
  | None => Raise "TypeError"
  | Some name =>
      match __keys (opts visitor) name with
      | Some ks => Ok ks
      | None =>
          match fallback visitor with
          | Some (FallbackFn f) => Ok (f (node e))
          | Some (FallbackValue v) =>
              if is_str v "iteration" then Ok (Object_keys (node e))
              else Raise ("Unknown node type " +:+ name +:+ ".")
          | None => Ok (defaultFallback (node e))
          end
      end
  end.

(** The children of an element, in visiting order. *)
Definition childrenOf {St} (visitor : Visitor St) (e : Element)
    : Try (list Element) :=
  match childKeys visitor e with
  | Ok ks =>
      Ok (flat_map (fun key => candidateNodes (nodeTypeOf e) key (get key (node e)))
                   ks)
  | Raise error => Raise error
  end.

(** The node of the element on top of the leave list: the parent a
    callback is told. *)
Definition parentOf (leavelist : list Element) : value :=
  match leavelist with
  | e :: _ => node e
  | [] => VUndefined
  end.

(** The flag a callback leaves behind or returns. *)
Definition asks (flag : option VisitorOption -> bool)
    {St} (r : Controller St * option VisitorOption) : bool :=
  flag (__state (fst r)) || flag (snd r).

Section Visit.
Context {St : Type}.
Variable visitor : Visitor St.

(** Visit an element whose parent node is [parent]: nothing for a falsy
    node; else [enter], then, unless [enter] asked to skip, the children,
    then [leave].  Once a callback has asked to break, or the lookup of
    the child fields has thrown, nothing more is called.  [depth] bounds
    the nesting. *)
Fixpoint visitUpTo (depth : nat) (parent : value) (e : Element) (s : St)
    : Visit St :=
  match depth with
  | O => GoOn s
  | S depth' =>
      if negb (truthy (node e)) then GoOn s
      else
        let entered := __execute (enter visitor) e [mkElement parent None] s in
        if asks is_Break entered then Broke (user (fst entered))
        else
          let inside :=
            if asks is_Skip entered then GoOn (user (fst entered))
            else
              match childrenOf visitor e with
              | Ok children =>
                  foldVisit (visitUpTo depth' (node e)) children (user (fst entered))
              | Raise error => Threw error
              end in
          match inside with
          | GoOn s' =>
              let left := __execute (leave visitor) e [mkElement parent None] s' in
              if asks is_Break left then Broke (user (fst left))
              else GoOn (user (fst left))
          | stopped => stopped
          end
  end.

(** The walk from a root, whose parent is [null]. *)
Definition visit (root : value) (s : St) : Outcome St :=
  match visitUpTo (S (size root)) VNull (mkElement root None) s with
  | GoOn s' | Broke s' => Done s'
  | Threw error => Thrown error
  end.

(** What is left of the loop after an element has been visited: the rest
    of the work list if the walk goes on. *)
Definition thenRest (fuel : nat) (worklist : list WorkItem)
    (leavelist : list Element) (r : Visit St) : Outcome St :=
  match r with
  | GoOn s => loop (opts visitor) fuel worklist leavelist s
  | Broke s => Done s
  | Threw error => Thrown error
  end.

(** Collecting nodes over a list, in order, up to the first error. *)
Fixpoint collect {A} (f : A -> list value * option string) (l : list A)
    : list value * option string :=
  match l with
  | [] => ([], None)
  | x :: rest =>
      match f x with
      | (nodes, None) => let r := collect f rest in (nodes ++ fst r, snd r)
      | stopped => stopped
      end
  end.

(** The truthy nodes under an element in pre-order: the node, then the
    nodes under each of its children in turn; with the error, if the
    lookup of the child fields of a node throws, which ends the list. *)
Fixpoint preorderUpTo (depth : nat) (e : Element) : list value * option string :=
  match depth with
  | O => ([], None)
  | S depth' =>
      if truthy (node e) then
        match childrenOf visitor e with
        | Ok children =>
            let under := collect (preorderUpTo depth') children in
            (node e :: fst under, snd under)
        | Raise error => ([node e], Some error)
        end
      else ([], None)
  end.

Definition preorder (root : value) : list value * option string :=
  preorderUpTo (S (size root)) (mkElement root None).

End Visit.

(** The visitor has no [fallback] of its own, or one the walker can use. *)
Definition usableFallback {St} (visitor : Visitor St) : bool :=
  match fallback visitor with
  | Some (FallbackValue v) => is_str v "iteration"
  | _ => true
  end.

(** A visitor that writes down every node it enters and never skips or
    breaks, with any [fallback] and [keys]. *)
Definition recordNodes : Callback (list value) :=
  fun n _parent this => (mkController (user this ++ [n]) (__state this), None).
Definition recorder (fallback : option Fallback)
    (keys : option (gmap string (list string))) : Visitor (list value) :=
  mkVisitor (Some recordNodes) None fallback keys.

(** How a walk that writes down nodes ends, given the nodes in pre-order
    and the error that ends them, if any. *)
Definition recordedVisit (seen : list value) (r : list value * option string)
    : Visit (list value) :=
  match r with
  | (nodes, None) => GoOn (seen ++ nodes)
  | (_, Some error) => Threw error
  end.
Definition recorded (seen : list value) (r : list value * option string)
    : Outcome (list value) :=
  match r with
  | (nodes, None) => Done (seen ++ nodes)
  | (_, Some error) => Thrown error
  end.

(** A visitor that writes down the type of every node it enters and
    leaves, and never skips or breaks. *)
Definition typeOf (n : value) : string :=
  match get "type" n with VStr t => t | _ => "" end.
Definition logTypes (prefix : string) : Callback (list string) :=
  fun n _parent this =>
    (mkController (user this ++ [prefix +:+ typeOf n]) (__state this), None).
Definition typeLogger : Visitor (list string) :=
  mkVisitor (Some (logTypes "enter ")) (Some (logTypes "leave ")) None None.

(** The same visitor with a [fallback] property that holds [undefined]. *)
Definition typeLoggerWithoutFallback : Visitor (list string) :=
  mkVisitor (Some (logTypes "enter ")) (Some (logTypes "leave "))
            (Some (FallbackValue VUndefined)) None.

(** [<a href="x">{y}</a>]: a [JSXElement] with an opening element and two
    children, none of them a type the walker knows. *)
Definition jsxElement : value :=
  VObj [ ("type", VStr "JSXElement");
         ("openingElement",
          VObj [("type", VStr "JSXOpeningElement"); ("name", VStr "a")]);
         ("children",
          VArr [ VObj [("type", VStr "JSXText"); ("value", VStr "t")];
                 VObj [ ("type", VStr "JSXExpressionContainer");
                        ("expression",
                         VObj [("type", VStr "Identifier"); ("name", VStr "y")]) ] ]) ].

(** A node whose type is the name of a member of [Object.prototype], with
    an identifier under [argument]. *)
Definition constructorNode : value :=
  VObj [ ("type", VStr "constructor");
         ("argument", VObj [("type", VStr "Identifier"); ("name", VStr "y")]) ].

End PreOrder.

(* ===================================================================== *)
(** ** Token streams in source order *)
(* ===================================================================== *)

Module TokenOrder.

Import ESLint AstUtilTokens.

(** Every token starts before the next one does, as in the stream a
    parser produces. *)
Fixpoint startsIncrease (l : list Token.t) : bool :=
  match l with
  | a :: (b :: _) as rest =>
      (fst (Token.range a) <? fst (Token.range b)) && startsIncrease rest
  | _ => true
  end.

Definition startsBefore (a b : Token.t) : Prop :=
  fst (Token.range a) < fst (Token.range b).

(** The last token that starts before [offset] and is not a [JSXText]
    token whose last line is blank. *)
Definition lastSolidBefore (sourceCode : SourceCode) (offset : nat)
    : option Token.t :=
  last (List.filter
          (fun t => (fst (Token.range t) <? offset) && negb (isBlankJSXText t))
          (tokens sourceCode)).

(** [<a>], a line break and two spaces, [<b/></a>]: the inner element is
    the first thing on the second line. *)
Definition jsxOnNextLine : SourceCode :=
  mkSourceCode
    ("<a>" +:+ String newline "  <b/></a>")
    [ Token.mk "Punctuator" "<" (0, 1) (mkLoc (mkPosition 1 0) (mkPosition 1 1));
      Token.mk "JSXIdentifier" "a" (1, 2) (mkLoc (mkPosition 1 1) (mkPosition 1 2));
      Token.mk "Punctuator" ">" (2, 3) (mkLoc (mkPosition 1 2) (mkPosition 1 3));
      Token.mk "JSXText" (String newline "  ") (3, 6)
        (mkLoc (mkPosition 1 3) (mkPosition 2 2));
      Token.mk "Punctuator" "<" (6, 7) (mkLoc (mkPosition 2 2) (mkPosition 2 3));
      Token.mk "JSXIdentifier" "b" (7, 8) (mkLoc (mkPosition 2 3) (mkPosition 2 4));
      Token.mk "Punctuator" "/" (8, 9) (mkLoc (mkPosition 2 4) (mkPosition 2 5));
      Token.mk "Punctuator" ">" (9, 10) (mkLoc (mkPosition 2 5) (mkPosition 2 6));
      Token.mk "Punctuator" "<" (10, 11) (mkLoc (mkPosition 2 6) (mkPosition 2 7));
      Token.mk "Punctuator" "/" (11, 12) (mkLoc (mkPosition 2 7) (mkPosition 2 8));
      Token.mk "JSXIdentifier" "a" (12, 13) (mkLoc (mkPosition 2 8) (mkPosition 2 9));
      Token.mk "Punctuator" ">" (13, 14) (mkLoc (mkPosition 2 9) (mkPosition 2 10)) ].
Definition jsxOnNextLine_inner : Node.t :=
  Node.mk "JSXElement" (6, 10) (mkLoc (mkPosition 2 2) (mkPosition 2 6)).

(** The no-break space, code unit 160. *)
Definition nbsp : ascii := ascii_of_nat 160.

(** [<a>x], a line break and a no-break space, [<b/></a>]: the last line
    of the text before the inner element holds the no-break space only. *)
Definition jsxAfterNoBreakSpace : SourceCode :=
  mkSourceCode
    ("<a>x" +:+ String newline (String nbsp "<b/></a>"))
    [ Token.mk "Punctuator" "<" (0, 1) (mkLoc (mkPosition 1 0) (mkPosition 1 1));
      Token.mk "JSXIdentifier" "a" (1, 2) (mkLoc (mkPosition 1 1) (mkPosition 1 2));
      Token.mk "Punctuator" ">" (2, 3) (mkLoc (mkPosition 1 2) (mkPosition 1 3));
      Token.mk "JSXText" ("x" +:+ String newline (String nbsp "")) (3, 6)
        (mkLoc (mkPosition 1 3) (mkPosition 2 1));
      Token.mk "Punctuator" "<" (6, 7) (mkLoc (mkPosition 2 1) (mkPosition 2 2));
      Token.mk "JSXIdentifier" "b" (7, 8) (mkLoc (mkPosition 2 2) (mkPosition 2 3));
      Token.mk "Punctuator" "/" (8, 9) (mkLoc (mkPosition 2 3) (mkPosition 2 4));
      Token.mk "Punctuator" ">" (9, 10) (mkLoc (mkPosition 2 4) (mkPosition 2 5));
      Token.mk "Punctuator" "<" (10, 11) (mkLoc (mkPosition 2 5) (mkPosition 2 6));
      Token.mk "Punctuator" "/" (11, 12) (mkLoc (mkPosition 2 6) (mkPosition 2 7));
      Token.mk "JSXIdentifier" "a" (12, 13) (mkLoc (mkPosition 2 7) (mkPosition 2 8));
      Token.mk "Punctuator" ">" (13, 14) (mkLoc (mkPosition 2 8) (mkPosition 2 9)) ].
Definition jsxAfterNoBreakSpace_inner : Node.t :=
  Node.mk "JSXElement" (6, 10) (mkLoc (mkPosition 2 1) (mkPosition 2 5)).

End TokenOrder.

(* ===================================================================== *)
(** ** The AST utility module: [isParenthesized] *)
(* ===================================================================== *)

Module Parenthesized.

Import ESLint.

(** [sourceCode.getTokenAfter(nodeOrToken)], given the range of the node
    or token: the first token that starts at or after its end, [null] if
    there is none. *)
Definition getTokenAfter (sourceCode : SourceCode) (range : nat * nat)
    : option Token.t :=
  head (List.filter (fun t => snd range <=? fst (Token.range t)) (tokens sourceCode)).

(** [isParenthesized(context, node)] *)
Definition isParenthesized (sourceCode : SourceCode) (node : Node.t) : bool :=
  let previousToken := getTokenBefore sourceCode (Node.range node) in
  let nextToken := getTokenAfter sourceCode (Node.range node) in
  match previousToken, nextToken with
  | Some previousToken, Some nextToken =>
      String.eqb (Token.value previousToken) "("
      && (snd (Token.range previousToken) <=? fst (Node.range node))
      && String.eqb (Token.value nextToken) ")"
      && (snd (Node.range node) <=? fst (Token.range nextToken))
  | _, _ => false
  end.

(** The tokens are some tokens, then [(], then tokens that start inside
    the range, then [)], then some tokens, with the [(] ending at or before
    the range. *)
Definition wrappedInParens (l : list Token.t) (range : nat * nat) : Prop :=
  exists before open inner close after,
    l = before ++ open :: inner ++ close :: after
    /\ Token.value open = "("
    /\ Token.value close = ")"
    /\ fst (Token.range open) < fst range
    /\ snd (Token.range open) <= fst range
    /\ Forall (fun t => fst range <= fst (Token.range t)
                        /\ fst (Token.range t) < snd range) inner
    /\ snd range <= fst (Token.range close).

(** [f(a)]: the argument [a] stands between the parentheses of the
    call. *)
Definition callWithArgument : SourceCode :=
  mkSourceCode "f(a)"
    [ Token.mk "Identifier" "f" (0, 1) (mkLoc (mkPosition 1 0) (mkPosition 1 1));
      Token.mk "Punctuator" "(" (1, 2) (mkLoc (mkPosition 1 1) (mkPosition 1 2));
      Token.mk "Identifier" "a" (2, 3) (mkLoc (mkPosition 1 2) (mkPosition 1 3));
      Token.mk "Punctuator" ")" (3, 4) (mkLoc (mkPosition 1 3) (mkPosition 1 4)) ].
Definition callWithArgument_argument : Node.t :=
  Node.mk "Identifier" (2, 3) (mkLoc (mkPosition 1 2) (mkPosition 1 3)).

End Parenthesized.

(* ===================================================================== *)
(** * Properties *)
(* ===================================================================== *)

Import Estraverse AstUtil ReturnPoints.

(** ** Sizes of the children of a node *)

Lemma size_VArr elems : size (VArr elems) = S (sizes elems).
Proof. reflexivity. Qed.

Lemma size_VObj props :
  size (VObj props) = S (list_sum (map (fun kv => size (snd kv)) props)).
Proof. reflexivity. Qed.

Lemma sizes_cons x l : sizes (x :: l) = size x + sizes l.
Proof. reflexivity. Qed.

Lemma sizes_app l1 l2 : sizes (l1 ++ l2) = sizes l1 + sizes l2.
Proof. unfold sizes. rewrite map_app, list_sum_app. reflexivity. Qed.

Lemma sizes_In c l : In c l -> size c <= sizes l.
Proof.
  induction l as [|x l IH]; intros Hin; [destruct Hin|].
  rewrite sizes_cons. destruct Hin as [->|Hin]; [lia|]. specialize (IH Hin). lia.
Qed.

Lemma sizes_filter (P : value -> bool) l : sizes (List.filter P l) <= sizes l.
Proof.
  induction l as [|x l IH]; [reflexivity|].
  cbn [List.filter]. destruct (P x); rewrite ?sizes_cons; lia.
Qed.

Lemma assoc_size key props :
  size (assoc key props) <= list_sum (map (fun kv => size (snd kv)) props).
Proof.
  induction props as [|[k v] rest IH]; [cbv; lia|].
  cbn [assoc map snd]. change (list_sum (?a :: ?l)) with (a + list_sum l).
  destruct (String.eqb key k); lia.
Qed.

Lemma nodesOf_sizes c : sizes (nodesOf c) <= size c.
Proof.
  destruct c as [| |b|n|str|elems|props]; try (cbv; lia).
  - rewrite size_VArr. unfold nodesOf.
    pose proof (sizes_filter isNode elems). lia.
  - unfold nodesOf. destruct (isNode (VObj props)); [|cbv; lia].
    rewrite sizes_cons. change (sizes []) with 0. lia.
Qed.

Lemma isNode_VObj v : isNode v = true -> exists props, v = VObj props.
Proof. destruct v; try discriminate. eauto. Qed.

Lemma isNode_truthy v : isNode v = true -> truthy v = true.
Proof. destruct v; try discriminate. reflexivity. Qed.

Lemma nodesOf_isNode c x : In x (nodesOf c) -> isNode x = true.
Proof.
  destruct c as [| |b|n|str|elems|props]; cbn [nodesOf];
    try (intros []; fail).
  - intros Hin. apply filter_In in Hin. tauto.
  - destruct (isNode (VObj props)) eqn:E; intros Hin; [|destruct Hin].
    destruct Hin as [<-|[]]. exact E.
Qed.

(** The sizes of the values under distinct keys add up to at most the
    size of the object. *)
Lemma assoc_keys_sizes props : forall ks, NoDup ks ->
  list_sum (map (fun key => size (assoc key props)) ks)
  <= list_sum (map (fun kv => size (snd kv)) props).
Proof.
  induction props as [|[k0 v0] rest IH]; intros ks Hnd.
  - clear Hnd. induction ks as [|k ks IHks]; [reflexivity|].
    cbn [map assoc]. change (list_sum (?a :: ?l)) with (a + list_sum l).
    cbn [size]. exact IHks.
  - assert (Hsplit : forall ks, NoDup ks ->
       list_sum
         (map (fun key => size (if String.eqb key k0 then v0 else assoc key rest)) ks)
       <= (if decide (k0 ∈ ks) then size v0 else 0)
          + list_sum (map (fun key => size (assoc key rest))
                          (filter (fun key => key <> k0) ks))).
    { clear. induction ks as [|k ks IHks]; intros Hnd.
      - cbn. lia.
      - apply NoDup_cons in Hnd as [Hk Hnd]. specialize (IHks Hnd).
        rewrite filter_cons. cbn [map].
        change (list_sum (?a :: ?l)) with (a + list_sum l).
        destruct (String.eqb_spec k k0) as [->|Hne].
        + destruct (decide (k0 <> k0)); [congruence|].
          destruct (decide (k0 ∈ k0 :: ks)) as [_|Hn]; [|exfalso; apply Hn; left].
          destruct (decide (k0 ∈ ks)); [contradiction|]. lia.
        + destruct (decide (k <> k0)); [|contradiction]. cbn [map].
          change (list_sum (?a :: ?l)) with (a + list_sum l).
          destruct (decide (k0 ∈ k :: ks)) as [Hin|Hn];
            destruct (decide (k0 ∈ ks)) as [Hin'|Hn']; try lia.
          exfalso. apply Hn. right. assumption. }
    specialize (Hsplit ks Hnd).
    assert (Hf : NoDup (filter (fun key => key <> k0) ks))
      by (apply NoDup_filter; assumption).
    specialize (IH _ Hf).
    cbn [map snd]. change (list_sum (?a :: ?l)) with (a + list_sum l).
    cbn [assoc] in *. destruct (decide (k0 ∈ ks)); lia.
Qed.

Section ThroughFacts.
Variable through : string -> option (list string).

Lemma childNodes_isNode v x : In x (childNodes through v) -> isNode x = true.
Proof.
  unfold childNodes. destruct (get "type" v) as [| | | |t| |]; try (intros []; fail).
  destruct (through t); [|intros []].
  intros Hin. apply in_flat_map in Hin as (k & _ & Hin).
  eapply nodesOf_isNode; eassumption.
Qed.

Lemma childNodes_size_lt v c : In c (childNodes through v) -> size c < size v.
Proof.
  unfold childNodes. destruct v as [| |b|n|str|elems|props]; try (intros []; fail).
  destruct (get "type" (VObj props)) as [| | | |t| |]; try (intros []; fail).
  destruct (through t) as [ks|]; [|intros []].
  intros Hin. apply in_flat_map in Hin as (k & _ & Hin).
  apply sizes_In in Hin. pose proof (nodesOf_sizes (get k (VObj props))).
  pose proof (assoc_size k props). cbn [get] in *. rewrite size_VObj. lia.
Qed.

Lemma returnsUpTo_atom n v : size v = 0 -> returnsUpTo through n v = [].
Proof.
  intros Hsz. destruct v as [| |b|z|str|elems|props];
    try (rewrite ?size_VArr, ?size_VObj in Hsz; discriminate);
    destruct n; reflexivity.
Qed.

Lemma flat_map_ext_In {A B} (f g : A -> list B) l :
  (forall x, In x l -> f x = g x) -> flat_map f l = flat_map g l.
Proof.
  induction l as [|x l IH]; intros H; [reflexivity|].
  cbn [flat_map]. rewrite (H x), IH; [reflexivity| |left; reflexivity].
  intros y Hy. apply H. right. exact Hy.
Qed.

(** The depth bound does not matter once it covers the value. *)
Lemma returnsUpTo_stable n : forall m v,
  size v <= n -> size v <= m -> returnsUpTo through n v = returnsUpTo through m v.
Proof.
  induction n as [|n IH]; intros m v Hn Hm.
  - rewrite !returnsUpTo_atom by lia. reflexivity.
  - destruct m as [|m]; [rewrite !returnsUpTo_atom by lia; reflexivity|].
    cbn [returnsUpTo]. destruct (is_str (get "type" v) "ReturnStatement"); [reflexivity|].
    apply flat_map_ext_In. intros c Hc. apply childNodes_size_lt in Hc.
    apply IH; lia.
Qed.

(** [returnsThrough] as a recursive equation. *)
Lemma returnsThrough_eq v :
  returnsThrough through v =
  if is_str (get "type" v) "ReturnStatement" then [v]
  else flat_map (returnsThrough through) (childNodes through v).
Proof.
  unfold returnsThrough. destruct (size v) as [|n] eqn:Hsz.
  - rewrite returnsUpTo_atom by exact Hsz.
    destruct v as [| |b|z|str|elems|props]; try reflexivity;
      rewrite ?size_VArr, ?size_VObj in Hsz; discriminate.
  - cbn [returnsUpTo]. destruct (is_str (get "type" v) "ReturnStatement"); [reflexivity|].
    apply flat_map_ext_In. intros c Hc. apply childNodes_size_lt in Hc.
    apply returnsUpTo_stable; lia.
Qed.

Lemma reaches_returnsThrough v r :
  reaches through v r -> In r (returnsThrough through v).
Proof.
  induction 1 as [r Hr|v t ks key c r Ht Hnr Hks Hkey Hc _ IH];
    rewrite returnsThrough_eq.
  - rewrite Hr. left. reflexivity.
  - rewrite Ht. cbn [is_str]. rewrite Hnr.
    apply in_flat_map. exists c. split; [|exact IH].
    unfold childNodes. rewrite Ht, Hks. apply in_flat_map. eauto.
Qed.

Lemma returnsUpTo_reaches n : forall v r,
  In r (returnsUpTo through n v) -> reaches through v r.
Proof.
  induction n as [|n IH]; intros v r Hin; [destruct Hin|].
  cbn [returnsUpTo] in Hin.
  destruct (is_str (get "type" v) "ReturnStatement") eqn:Hr.
  - destruct Hin as [<-|[]]. apply reaches_return. exact Hr.
  - apply in_flat_map in Hin as (c & Hc & Hin). apply IH in Hin.
    unfold childNodes in Hc.
    destruct (get "type" v) as [| | | |t| |] eqn:Ht; try (destruct Hc; fail).
    destruct (through t) as [ks|] eqn:Hks; [|destruct Hc].
    apply in_flat_map in Hc as (key & Hkey & Hc).
    eapply reaches_child; eauto.
Qed.

Lemma returnsThrough_reaches v r :
  In r (returnsThrough through v) <-> reaches through v r.
Proof.
  split; [apply returnsUpTo_reaches | apply reaches_returnsThrough].
Qed.

End ThroughFacts.

(** ** The walk of [traverseReturns] *)

Lemma forEachUntil_app {St} (onReturn : OnReturn St) l1 l2 s :
  forEachUntil onReturn (l1 ++ l2) s =
  (let r := forEachUntil onReturn l1 s in
   if snd r then r else forEachUntil onReturn l2 (fst r)).
Proof.
  revert s. induction l1 as [|x l1 IH]; intros s; cbn [forEachUntil app]; [reflexivity|].
  destruct (onReturn x s) as [s' stop]. destruct stop; [reflexivity|]. apply IH.
Qed.

Lemma transparentKeys_cases t ks :
  transparentKeys t = Some ks ->
  (t = "BlockStatement" /\ ks = ["body"]) \/
  (t = "IfStatement" /\ ks = ["test"; "consequent"; "alternate"]) \/
  (t = "ForStatement" /\ ks = ["init"; "test"; "update"; "body"]) \/
  (t = "WhileStatement" /\ ks = ["test"; "body"]) \/
  (t = "SwitchStatement" /\ ks = ["discriminant"; "cases"]) \/
  (t = "SwitchCase" /\ ks = ["test"; "consequent"]).
Proof.
  unfold transparentKeys.
  repeat match goal with
  | |- context [String.eqb t ?c] =>
      destruct (String.eqb_spec t c) as [->|?]; [intros [= <-]; tauto|]
  end.
  discriminate.
Qed.

Ltac each_transparent H :=
  destruct H as [[-> ->]|[[-> ->]|[[-> ->]|[[-> ->]|[[-> ->]|[-> ->]]]]]].

Lemma transparentKeys_NoDup t ks : transparentKeys t = Some ks -> NoDup ks.
Proof.
  intros H. apply transparentKeys_cases in H. each_transparent H; compute_done.
Qed.

Lemma childNodes_sizes props :
  sizes (childNodes transparentKeys (VObj props)) < size (VObj props).
Proof.
  unfold childNodes. rewrite size_VObj.
  destruct (get "type" (VObj props)) as [| | | |t| |]; try (cbv; lia).
  destruct (transparentKeys t) as [ks|] eqn:Hks; [|cbv; lia].
  apply transparentKeys_NoDup in Hks.
  pose proof (assoc_keys_sizes props ks Hks) as Hsum.
  enough (sizes (flat_map (fun key => nodesOf (get key (VObj props))) ks)
          <= list_sum (map (fun key => size (assoc key props)) ks)) by lia.
  clear. induction ks as [|k ks IH]; [cbv; lia|].
  cbn [flat_map map]. rewrite sizes_app.
  pose proof (nodesOf_sizes (get k (VObj props))) as Hk.
  change (list_sum (?a :: ?l)) with (a + list_sum l). cbn [get] in *. lia.
Qed.

Section Walk.
Context {St : Type}.
Variable onReturn : OnReturn St.


Lemma loop_enter (U : Visitor St) f e wl ll s :
  truthy (node e) = true ->
  loop U (S f) (Work e :: wl) ll s =
  (let '(c, ret) := __execute (enter U) e ll s in
   if is_Break (__state c) || is_Break ret then Done (user c)
   else if is_Skip (__state c) || is_Skip ret
        then loop U f (Sentinel :: wl) (e :: ll) (user c)
        else
          match ToString (nodeTypeOf e) with
          | None => Thrown "TypeError"
          | Some name =>
              match
                match __keys U name with
                | Some ks => Some ks
                | None =>
                    match __fallback U with
                    | Some fb => Some (fb (node e))
                    | None => None
                    end
                end
              with
              | None => Thrown ("Unknown node type " +:+ name +:+ ".")
              | Some ks =>
                  loop U f (childElements (nodeTypeOf e) (node e) ks ++ Sentinel :: wl)
                       (e :: ll) (user c)
              end
          end).
Proof. intros Ht. cbn [loop]. rewrite Ht. reflexivity. Qed.

Lemma step_sentinel f wl e ll s :
  loop (walkVisitor onReturn) (S f) (Sentinel :: wl) (e :: ll) s =
  loop (walkVisitor onReturn) f wl ll s.
Proof. reflexivity. Qed.

Lemma step_return f v wl ll s :
  is_str (get "type" v) "ReturnStatement" = true ->
  loop (walkVisitor onReturn) (S (S f)) (pushed v :: wl) ll s =
  resume onReturn f wl ll (forEachUntil onReturn [get "argument" v] s).
Proof.
  intros Hret.
  assert (Ht : truthy v = true).
  { destruct v; try discriminate. reflexivity. }
  unfold pushed. rewrite loop_enter by exact Ht.
  unfold walkVisitor at 1 2.
  unfold __execute, opts, returnsVisitor, enter, returnsEnter, node.
  rewrite Hret. cbn [forEachUntil skip notify user __state].
  destruct (onReturn (get "argument" v) s) as [s' called].
  destruct called; reflexivity.
Qed.

Lemma step_opaque f v t wl ll s :
  isNode v = true ->
  get "type" v = VStr t ->
  String.eqb t "ReturnStatement" = false ->
  transparentKeys t = None ->
  loop (walkVisitor onReturn) (S (S f)) (pushed v :: wl) ll s =
  loop (walkVisitor onReturn) f wl ll s.
Proof.
  intros Hn Ht Hr Hk.
  unfold pushed. rewrite loop_enter by (apply isNode_truthy, Hn).
  unfold walkVisitor at 1 2.
  unfold __execute, opts, returnsVisitor, enter, returnsEnter, node.
  rewrite Ht. cbn [is_str]. rewrite Hr.
  unfold transparentKeys in Hk.
  repeat match type of Hk with
  | (if String.eqb t ?c then _ else _) = None =>
      destruct (String.eqb t c); [discriminate|]
  end.
  reflexivity.
Qed.

Lemma keys_transparent t ks :
  transparentKeys t = Some ks -> __keys (walkVisitor onReturn) t = Some ks.
Proof.
  intros H. apply transparentKeys_cases in H. each_transparent H;
    vm_compute; reflexivity.
Qed.

Lemma candidateElements_nodes t key c :
  isProperty (VStr t) key = false ->
  candidateElements (VStr t) key c = map pushed (nodesOf c).
Proof.
  intros Hp. unfold candidateElements, nodesOf. rewrite Hp.
  destruct c as [| |b|n|str|elems|props]; try reflexivity.
  - destruct b; reflexivity.
  - cbn [truthy]. destruct (Z.eqb n 0); reflexivity.
  - cbn [truthy]. destruct (String.eqb str ""); reflexivity.
  - induction elems as [|x xs IH]; [reflexivity|].
    cbn [flat_map List.filter truthy negb].
    destruct (isNode x) eqn:Hx.
    + rewrite (isNode_truthy _ Hx). cbn [negb app map]. f_equal. exact IH.
    + destruct (truthy x); cbn [negb app]; exact IH.
  - cbn [truthy negb]. destruct (isNode (VObj props)); reflexivity.
Qed.

Lemma childElements_nodes v t ks :
  get "type" v = VStr t ->
  transparentKeys t = Some ks ->
  childElements (VStr t) v ks = map pushed (childNodes transparentKeys v).
Proof.
  intros Ht Hks. unfold childNodes. rewrite Ht, Hks. unfold childElements.
  assert (Hp : forall key, isProperty (VStr t) key = false).
  { intros key. apply transparentKeys_cases in Hks. each_transparent Hks; reflexivity. }
  clear Hks. induction ks as [|k ks IH]; [reflexivity|].
  cbn [flat_map]. rewrite map_app, IH, candidateElements_nodes by apply Hp.
  reflexivity.
Qed.

Lemma step_transparent f v t ks wl ll s :
  isNode v = true ->
  get "type" v = VStr t ->
  transparentKeys t = Some ks ->
  loop (walkVisitor onReturn) (S f) (pushed v :: wl) ll s =
  loop (walkVisitor onReturn) f
       (map pushed (childNodes transparentKeys v) ++ Sentinel :: wl)
       (mkElement v None :: ll) s.
Proof.
  intros Hn Ht Hks.
  assert (Hfacts : String.eqb t "" = false /\ String.eqb t "ReturnStatement" = false
                   /\ String.eqb t "BlockStatement" || String.eqb t "IfStatement"
                      || String.eqb t "ForStatement" || String.eqb t "WhileStatement"
                      || String.eqb t "SwitchStatement" || String.eqb t "SwitchCase"
                      = true).
  { pose proof (transparentKeys_cases _ _ Hks) as H.
    each_transparent H; repeat split; reflexivity. }
  destruct Hfacts as (Hne & Hr & Hor).
  unfold pushed. rewrite loop_enter by (apply isNode_truthy, Hn).
  assert (Hty : nodeTypeOf (mkElement v None) = VStr t).
  { unfold nodeTypeOf. cbn [node]. rewrite Ht. cbn [truthy]. rewrite Hne. reflexivity. }
  cbn [node].
  rewrite Hty. cbn [ToString].
  rewrite (keys_transparent _ _ Hks), (childElements_nodes _ _ _ Ht Hks).
  unfold walkVisitor at 1 2.
  unfold __execute, opts, returnsVisitor, enter, returnsEnter, node.
  rewrite Ht. cbn [is_str]. rewrite Hr, Hor. reflexivity.
Qed.

Lemma walk_children n :
  (forall v, size v <= n -> isNode v = true ->
     exists k, k <= 2 * size v /\ forall f wl ll s,
       loop (walkVisitor onReturn) (k + f) (pushed v :: wl) ll s =
       resume onReturn f wl ll
         (forEachUntil onReturn
            (map (get "argument") (returnsUpTo transparentKeys n v)) s)) ->
  forall cs, (forall c, In c cs -> size c <= n /\ isNode c = true) ->
    exists k, k <= 2 * sizes cs /\ forall f wl ll s,
      loop (walkVisitor onReturn) (k + f) (map pushed cs ++ wl) ll s =
      resume onReturn f wl ll
        (forEachUntil onReturn
           (map (get "argument") (flat_map (returnsUpTo transparentKeys n) cs)) s).
Proof.
  intros Hnode cs. induction cs as [|c cs IH]; intros Hcs.
  - exists 0. split; [lia|]. intros. reflexivity.
  - destruct (Hcs c) as [Hsz Hc]; [left; reflexivity|].
    destruct (Hnode c Hsz Hc) as (kc & Hkc & Hrun).
    destruct IH as (K & HK & Hrest).
    { intros c' Hin. apply Hcs. right. exact Hin. }
    exists (kc + K). split; [rewrite sizes_cons; lia|].
    intros f wl ll s. cbn [map app flat_map].
    replace (kc + K + f) with (kc + (K + f)) by lia.
    rewrite Hrun, map_app, forEachUntil_app. cbv zeta.
    destruct (forEachUntil onReturn
                (map (get "argument") (returnsUpTo transparentKeys n c)) s)
      as [s' stop].
    unfold resume at 1. cbn [fst snd]. destruct stop; [reflexivity|].
    apply Hrest.
Qed.

(** The loop handles a node like the recursive function does: it calls
    [onReturn] on the return points under the node, in order, and either
    stops with the call that asks for it or goes on with the rest of the
    work list. *)
Lemma walk_node n : forall v, size v <= n -> isNode v = true ->
  exists k, k <= 2 * size v /\ forall f wl ll s,
    loop (walkVisitor onReturn) (k + f) (pushed v :: wl) ll s =
    resume onReturn f wl ll
      (forEachUntil onReturn
         (map (get "argument") (returnsUpTo transparentKeys n v)) s).
Proof.
  induction n as [|n IH]; intros v Hsz Hv.
  - destruct (isNode_VObj _ Hv) as [props ->]. rewrite size_VObj in Hsz. lia.
  - pose proof Hv as Hv'. destruct (isNode_VObj _ Hv) as [props ->].
    unfold isNode in Hv'.
    destruct (get "type" (VObj props)) as [| | | |t| |] eqn:Ht; try discriminate.
    clear Hv'. cbn [returnsUpTo]. rewrite Ht. cbn [is_str].
    destruct (String.eqb t "ReturnStatement") eqn:Hr.
    + exists 2. split; [rewrite size_VObj; lia|]. intros f wl ll s.
      apply step_return. rewrite Ht. exact Hr.
    + destruct (transparentKeys t) as [ks|] eqn:Hks.
      * pose proof (childNodes_sizes props) as Hlt.
        destruct (walk_children n IH (childNodes transparentKeys (VObj props)))
          as (K & HK & Hrun).
        { intros c Hin. split; [|eapply childNodes_isNode; exact Hin].
          pose proof (sizes_In _ _ Hin). lia. }
        exists (S (K + 1)). split; [lia|]. intros f wl ll s.
        cbn [Nat.add]. rewrite (step_transparent _ _ _ _ _ _ _ Hv Ht Hks).
        replace (K + 1 + f) with (K + S f) by lia. rewrite Hrun.
        unfold resume. destruct (snd _); [reflexivity|]. apply step_sentinel.
      * exists 2. split; [rewrite size_VObj; lia|]. intros f wl ll s.
        cbn [Nat.add]. rewrite (step_opaque _ _ _ _ _ _ Hv Ht Hr Hks).
        unfold childNodes. rewrite Ht, Hks. reflexivity.
Qed.

Lemma returnsUpTo_not_node n v :
  isNode v = false -> returnsUpTo transparentKeys n v = [].
Proof.
  intros Hv. destruct n as [|n]; [reflexivity|]. cbn [returnsUpTo].
  unfold childNodes.
  destruct v as [| |b|z|str|elems|props]; try reflexivity.
  unfold isNode in Hv. destruct (get "type" (VObj props)); try reflexivity. discriminate.
Qed.

(** [traverse] with the visitor of [traverseReturns], from any root. *)
Lemma walk_root fuel root s :
  walkFuel root <= fuel ->
  traverse fuel root (returnsVisitor onReturn) s =
  Done (fst (forEachUntil onReturn (map (get "argument") (returnPoints root)) s)).
Proof.
  unfold walkFuel. intros Hfuel.
  unfold traverse, Estraverse.traverse, returnPoints, returnsThrough.
  fold (walkVisitor onReturn). destruct (isNode root) eqn:Hroot.
  - destruct (walk_node (size root) root (Nat.le_refl _) Hroot) as (k & Hk & Hrun).
    replace fuel with (k + S (fuel - k - 1)) by lia.
    change (Work (mkElement root None)) with (pushed root). rewrite Hrun.
    unfold resume. destruct (snd _); reflexivity.
  - rewrite returnsUpTo_not_node by exact Hroot. cbn [map forEachUntil fst].
    destruct fuel as [|[|[|fuel]]]; try lia.
    destruct (truthy root) eqn:Ht.
    + rewrite loop_enter by exact Ht.
      unfold walkVisitor at 1 2.
      unfold __execute, opts, returnsVisitor, enter, returnsEnter.
      cbn [node].
      assert (Hns : forall c, is_str (get "type" root) c = false).
      { intros c. unfold isNode in Hroot.
        destruct root as [| |b|z|str|elems|props]; try reflexivity.
        destruct (get "type" (VObj props)); try reflexivity. discriminate. }
      rewrite !Hns. reflexivity.
    + cbn [loop node]. rewrite Ht. reflexivity.
Qed.

(** [traverseReturns] on a node whose body it walks. *)
Lemma traverseReturns_walk fuel ASTNode s :
  walksBody ASTNode = true ->
  walkFuel (get "body" ASTNode) <= fuel ->
  traverseReturns fuel ASTNode onReturn s =
  Done (fst (forEachUntil onReturn
               (map (get "argument") (returnPoints (get "body" ASTNode))) s)).
Proof.
  unfold walksBody, traverseReturns. cbv zeta. intros Hw Hfuel.
  apply andb_prop in Hw as [Hty Harrow].
  destruct ASTNode as [| |b|z|str|elems|props]; try discriminate.
  destruct (get "type" (VObj props)) as [| | | |t| |]; try discriminate.
  cbn [is_str] in *.
  destruct (String.eqb_spec t "ReturnStatement") as [->|_]; [discriminate|].
  apply negb_true_iff in Harrow. rewrite Harrow.
  destruct (String.eqb t "FunctionExpression"),
           (String.eqb t "FunctionDeclaration"),
           (String.eqb t "ArrowFunctionExpression"),
           (String.eqb t "MethodDefinition"); try discriminate;
    cbn [negb andb]; apply walk_root; exact Hfuel.
Qed.

End Walk.

(** ** What [traverseReturns] reports *)

Import Examples.

Lemma forEachUntil_record returned seen :
  forEachUntil record returned seen = (seen ++ returned, false).
Proof.
  revert seen. induction returned as [|r rest IH]; intros seen.
  - cbn [forEachUntil]. rewrite app_nil_r. reflexivity.
  - cbn [forEachUntil record]. rewrite IH, <- app_assoc. reflexivity.
Qed.

Lemma forEachUntil_traced {St} (onReturn : OnReturn St) returned s calls s1 :
  forEachUntil onReturn returned s = (s1, false) ->
  forEachUntil (traced onReturn) returned (s, calls) = ((s1, calls ++ returned), false).
Proof.
  revert s calls. induction returned as [|r rest IH]; intros s calls.
  - cbn [forEachUntil]. intros [= <-]. rewrite app_nil_r. reflexivity.
  - cbn [forEachUntil traced]. destruct (onReturn r s) as [s' stop].
    destruct stop; [discriminate|]. intros Hrest.
    rewrite (IH _ _ Hrest), <- app_assoc. reflexivity.
Qed.

(** A node that is neither a return statement nor looked through hides
    every return statement under it; a nested function is such a node. *)
Lemma returnPoints_opaque v t :
  get "type" v = VStr t ->
  String.eqb t "ReturnStatement" = false ->
  transparentKeys t = None ->
  returnPoints v = [].
Proof.
  intros Ht Hr Hk. unfold returnPoints. rewrite returnsThrough_eq.
  rewrite Ht. cbn [is_str]. rewrite Hr. unfold childNodes. rewrite Ht, Hk. reflexivity.
Qed.

(** ** Return points and source order *)

Lemma precedes_spec a b :
  precedes a b = true <->
  exists fa ta fb tb,
    rangeOf a = Some (fa, ta) /\ rangeOf b = Some (fb, tb) /\ (ta <= fb)%Z.
Proof.
  unfold precedes. destruct (rangeOf a) as [[fa ta]|], (rangeOf b) as [[fb tb]|];
    try (split; [discriminate | intros (? & ? & ? & ? & ? & ? & ?); discriminate]).
  rewrite Z.leb_le. split.
  - intros H. exists fa, ta, fb, tb. auto.
  - intros (? & ? & ? & ? & [= <- <-] & [= <- <-] & H). exact H.
Qed.

Lemma within_spec c v :
  within c v = true <->
  exists fc tc fv tv,
    rangeOf c = Some (fc, tc) /\ rangeOf v = Some (fv, tv)
    /\ (fv <= fc)%Z /\ (tc <= tv)%Z.
Proof.
  unfold within. destruct (rangeOf c) as [[fc tc]|], (rangeOf v) as [[fv tv]|];
    try (split; [discriminate | intros (? & ? & ? & ? & ? & ? & ?); discriminate]).
  rewrite andb_true_iff, !Z.leb_le. split.
  - intros H. exists fc, tc, fv, tv. tauto.
  - intros (? & ? & ? & ? & [= <- <-] & [= <- <-] & H). exact H.
Qed.

Lemma properRange_spec v :
  properRange v = true <-> exists f t, rangeOf v = Some (f, t) /\ (f < t)%Z.
Proof.
  unfold properRange. destruct (rangeOf v) as [[f t]|].
  - rewrite Z.ltb_lt. split; [eauto|]. intros (? & ? & [= <- <-] & H). exact H.
  - split; [discriminate|]. intros (? & ? & ? & _). discriminate.
Qed.

Lemma within_refl v : properRange v = true -> within v v = true.
Proof.
  intros (f & t & Hr & _)%properRange_spec. apply within_spec.
  exists f, t, f, t. repeat split; [assumption..|lia|lia].
Qed.

Lemma within_trans a b c :
  within a b = true -> within b c = true -> within a c = true.
Proof.
  intros (fa & ta & fb & tb & Ha & Hb & ? & ?)%within_spec
         (fb' & tb' & fc & tc & Hb' & Hc & ? & ?)%within_spec.
  rewrite Hb in Hb'. injection Hb' as <- <-.
  apply within_spec. exists fa, ta, fc, tc. repeat split; [assumption..|lia|lia].
Qed.

(** Nodes within two nodes that follow each other follow each other. *)
Lemma precedes_within a b x y :
  precedes a b = true -> within x a = true -> within y b = true ->
  precedes x y = true.
Proof.
  intros (fa & ta & fb & tb & Ha & Hb & ?)%precedes_spec
         (fx & tx & fa' & ta' & Hx & Ha' & ? & ?)%within_spec
         (fy & ty & fb' & tb' & Hy & Hb' & ? & ?)%within_spec.
  rewrite Ha in Ha'. injection Ha' as <- <-.
  rewrite Hb in Hb'. injection Hb' as <- <-.
  apply precedes_spec. exists fx, tx, fy, ty. repeat split; [assumption..|lia].
Qed.

Lemma precedes_trans a b c :
  precedes a b = true -> properRange b = true -> precedes b c = true ->
  precedes a c = true.
Proof.
  intros (fa & ta & fb & tb & Ha & Hb & ?)%precedes_spec
         (fb' & tb' & Hb' & ?)%properRange_spec
         (fb'' & tb'' & fc & tc & Hb'' & Hc & ?)%precedes_spec.
  rewrite Hb in Hb', Hb''. injection Hb' as <- <-. injection Hb'' as <- <-.
  apply precedes_spec. exists fa, ta, fc, tc. repeat split; [assumption..|lia].
Qed.

Lemma precedes_irrefl a : properRange a = true -> precedes a a = false.
Proof.
  intros (f & t & Hr & ?)%properRange_spec. unfold precedes. rewrite Hr.
  apply Z.leb_gt. assumption.
Qed.

(** Nodes with proper ranges that follow each other pairwise are in
    order as a whole. *)
Lemma inOrder_StronglySorted l :
  Forall (fun c => properRange c = true) l ->
  inOrder l = true ->
  StronglySorted (fun a b => precedes a b = true) l.
Proof.
  induction l as [|a l IH]; intros Hproper Hord; [constructor|].
  apply Forall_cons in Hproper as [Ha Hproper].
  destruct l as [|b l]; [constructor; constructor|].
  cbn [inOrder] in Hord. apply andb_prop in Hord as [Hab Hord].
  specialize (IH Hproper Hord). constructor; [exact IH|].
  constructor; [exact Hab|].
  apply StronglySorted_inv in IH as [_ Hb].
  apply Forall_cons in Hproper as [Hpb _].
  eapply Forall_impl; [exact Hb|]. intros c Hbc.
  exact (precedes_trans _ _ _ Hab Hpb Hbc).
Qed.

Lemma StronglySorted_app {A} (R : A -> A -> Prop) l1 l2 :
  StronglySorted R l1 -> StronglySorted R l2 ->
  (forall a b, In a l1 -> In b l2 -> R a b) ->
  StronglySorted R (l1 ++ l2).
Proof.
  intros H1 H2 Hcross. induction l1 as [|a l1 IH]; [exact H2|].
  apply StronglySorted_inv in H1 as [H1 Ha]. cbn [app]. constructor.
  - apply IH; [exact H1|]. intros x y Hx Hy. apply Hcross; [right|]; assumption.
  - apply Forall_app. split; [exact Ha|].
    apply Forall_forall. intros b Hb%list_elem_of_In.
    apply Hcross; [left; reflexivity|exact Hb].
Qed.

Lemma StronglySorted_flat_map (f : value -> list value) cs :
  StronglySorted (fun a b => precedes a b = true) cs ->
  (forall c, In c cs -> StronglySorted (fun a b => precedes a b = true) (f c)) ->
  (forall c r, In c cs -> In r (f c) -> within r c = true) ->
  StronglySorted (fun a b => precedes a b = true) (flat_map f cs).
Proof.
  induction cs as [|c cs IH]; intros Hcs Hsorted Hwithin; [constructor|].
  apply StronglySorted_inv in Hcs as [Hcs Hc]. cbn [flat_map].
  apply StronglySorted_app.
  - apply Hsorted. left. reflexivity.
  - apply IH; [exact Hcs| |].
    + intros c' Hc'. apply Hsorted. right. exact Hc'.
    + intros c' r Hc' Hr. apply (Hwithin c' r); [right|]; assumption.
  - intros a b Ha Hb. apply in_flat_map in Hb as (c' & Hc' & Hb).
    rewrite Forall_forall in Hc. specialize (Hc c' (proj2 (list_elem_of_In _ _) Hc')).
    eapply precedes_within; [exact Hc| |].
    + apply (Hwithin c a); [left; reflexivity|exact Ha].
    + apply (Hwithin c' b); [right; exact Hc'|exact Hb].
Qed.

(** In a laid-out tree the return points under a node lie within it, have
    proper ranges, and come in source order. *)
Lemma returnsUpTo_in_order n : forall v,
  size v <= n -> isNode v = true -> laidOutUpTo n v = true ->
  StronglySorted (fun a b => precedes a b = true) (returnsUpTo transparentKeys n v)
  /\ forall r, In r (returnsUpTo transparentKeys n v) ->
       within r v = true /\ properRange r = true.
Proof.
  induction n as [|n IH]; intros v Hsz Hv Hlaid.
  - split; [constructor | intros r []].
  - cbn [laidOutUpTo] in Hlaid.
    apply andb_prop in Hlaid as [Hlaid Hdeep].
    apply andb_prop in Hlaid as [Hlaid Hord].
    apply andb_prop in Hlaid as [Hproper Hin].
    rewrite forallb_forall in Hdeep, Hin.
    cbn [returnsUpTo]. destruct (is_str (get "type" v) "ReturnStatement").
    { split; [constructor; constructor|]. intros r [<-|[]].
      split; [apply within_refl|]; exact Hproper. }
    assert (Hchild : forall c, In c (childNodes transparentKeys v) ->
              size c <= n /\ isNode c = true /\ laidOutUpTo n c = true
              /\ properRange c = true).
    { intros c Hc. pose proof (childNodes_size_lt _ _ _ Hc) as Hlt.
      pose proof (childNodes_isNode _ _ _ Hc) as Hnode.
      pose proof (Hdeep c Hc) as Hl.
      repeat split; [lia|assumption|assumption|].
      destruct (isNode_VObj _ Hnode) as [props ->]. rewrite size_VObj in Hlt.
      destruct n as [|n]; [lia|]. cbn [laidOutUpTo] in Hl.
      repeat (apply andb_prop in Hl as [Hl _]). exact Hl. }
    split.
    + apply StronglySorted_flat_map.
      * apply inOrder_StronglySorted; [|exact Hord].
        apply Forall_forall. intros c Hc%list_elem_of_In. apply (Hchild c Hc).
      * intros c Hc. destruct (Hchild c Hc) as (? & ? & ? & _). apply IH; assumption.
      * intros c r Hc Hr. destruct (Hchild c Hc) as (? & ? & ? & _).
        apply (IH c); assumption.
    + intros r Hr. apply in_flat_map in Hr as (c & Hc & Hr).
      destruct (Hchild c Hc) as (? & ? & ? & _).
      destruct (IH c) as [_ Hrc]; [assumption..|].
      destruct (Hrc r Hr) as [Hw Hp]. split; [|exact Hp].
      exact (within_trans _ _ _ Hw (Hin c Hc)).
Qed.

Lemma StronglySorted_NoDup (l : list value) :
  StronglySorted (fun a b => precedes a b = true) l ->
  (forall r, In r l -> properRange r = true) ->
  NoDup l.
Proof.
  induction l as [|a l IH]; intros Hs Hp; [constructor|].
  apply StronglySorted_inv in Hs as [Hs Ha]. constructor.
  - intros Hin. rewrite Forall_forall in Ha. specialize (Ha a Hin).
    rewrite precedes_irrefl in Ha; [discriminate|]. apply Hp. left. reflexivity.
  - apply IH; [exact Hs|]. intros r Hr. apply Hp. right. exact Hr.
Qed.

(** The return points of a laid-out body are in source order, each
    once. *)
Lemma returnPoints_source_order body :
  laidOut body = true ->
  StronglySorted (fun a b => precedes a b = true) (returnPoints body)
  /\ NoDup (returnPoints body).
Proof.
  unfold laidOut, returnPoints, returnsThrough. intros Hlaid.
  destruct (isNode body) eqn:Hnode.
  - destruct (returnsUpTo_in_order (size body) body (Nat.le_refl _) Hnode Hlaid)
      as [Hsorted Hproper].
    split; [exact Hsorted|]. apply StronglySorted_NoDup; [exact Hsorted|].
    intros r Hr. apply (Hproper r Hr).
  - rewrite (returnsUpTo_not_node _ _ Hnode). split; constructor.
Qed.

Lemma throughAllLoops_listed v t :
  isUnlistedLoop v = false ->
  get "type" v = VStr t ->
  throughAllLoops t = transparentKeys t.
Proof.
  unfold isUnlistedLoop, throughAllLoops. intros Hloop Ht. rewrite Ht in Hloop.
  cbn [is_str] in Hloop.
  destruct (String.eqb t "DoWhileStatement"); [discriminate|].
  destruct (String.eqb t "ForInStatement"); [discriminate|].
  destruct (String.eqb t "ForOfStatement"); [discriminate|]. reflexivity.
Qed.

(** Where no loop of an unlisted form is met, looking through all loop
    forms finds the return points of the walk. *)
Lemma returnsUpTo_listed_loops n : forall v,
  listedLoopsUpTo n v = true ->
  returnsUpTo throughAllLoops n v = returnsUpTo transparentKeys n v.
Proof.
  induction n as [|n IH]; intros v Hlisted; [reflexivity|].
  cbn [listedLoopsUpTo] in Hlisted. apply andb_prop in Hlisted as [Hloop Hdeep].
  apply negb_true_iff in Hloop. rewrite forallb_forall in Hdeep.
  cbn [returnsUpTo]. destruct (is_str (get "type" v) "ReturnStatement"); [reflexivity|].
  assert (Hsame : childNodes throughAllLoops v = childNodes transparentKeys v).
  { unfold childNodes. destruct (get "type" v) as [| | | |t| |] eqn:Ht; try reflexivity.
    rewrite (throughAllLoops_listed v t Hloop Ht). reflexivity. }
  rewrite Hsame. apply flat_map_ext_In. intros c Hc. apply IH, Hdeep, Hc.
Qed.




(** [function f() { function g() { return 1; } return 2; }] gives one
    call, with [2]. *)
Example traverseReturns_nested_function :
  traverseReturns (walkFuel (get "body" nestedFunction)) nestedFunction record []
  = Done [literal 2].
Proof. vm_compute. reflexivity. Qed.

(** The cases of [traverseReturns] without a walk. *)
Lemma traverseReturns_return_statement {St} (onReturn : OnReturn St) fuel props s :
  is_str (get "type" (VObj props)) "ReturnStatement" = true ->
  traverseReturns fuel (VObj props) onReturn s =
  Done (fst (onReturn (get "argument" (VObj props)) s)).
Proof. unfold traverseReturns. cbv zeta. intros ->. reflexivity. Qed.

Lemma traverseReturns_arrow_expression {St} (onReturn : OnReturn St) fuel props s :
  is_str (get "type" (VObj props)) "ArrowFunctionExpression" = true ->
  truthy (get "expression" (VObj props)) = true ->
  traverseReturns fuel (VObj props) onReturn s =
  Done (fst (onReturn (get "body" (VObj props)) s)).
Proof.
  unfold traverseReturns. cbv zeta. intros Harrow ->. rewrite Harrow.
  destruct (get "type" (VObj props)) as [| | | |t| |]; try discriminate.
  cbn [is_str] in *. apply String.eqb_eq in Harrow. subst t. reflexivity.
Qed.

Lemma traverseReturns_other_node {St} (onReturn : OnReturn St) fuel props s :
  is_str (get "type" (VObj props)) "ReturnStatement" = false ->
  is_str (get "type" (VObj props)) "FunctionExpression" = false ->
  is_str (get "type" (VObj props)) "FunctionDeclaration" = false ->
  is_str (get "type" (VObj props)) "ArrowFunctionExpression" = false ->
  is_str (get "type" (VObj props)) "MethodDefinition" = false ->
  traverseReturns fuel (VObj props) onReturn s = Done s.
Proof.
  unfold traverseReturns. cbv zeta. intros -> -> -> -> ->. reflexivity.
Qed.

(** Without a truthy [body] there is nothing to walk. *)
Lemma traverseReturns_no_body {St} (onReturn : OnReturn St) fuel ASTNode s :
  walksBody ASTNode = true ->
  truthy (get "body" ASTNode) = false ->
  2 <= fuel ->
  traverseReturns fuel ASTNode onReturn s = Done s.
Proof.
  unfold walksBody, traverseReturns. cbv zeta. intros Hw Hbody Hfuel.
  apply andb_prop in Hw as [Hty Harrow].
  destruct ASTNode as [| |b|z|str|elems|props]; try discriminate.
  destruct (get "type" (VObj props)) as [| | | |t| |]; try discriminate.
  cbn [is_str] in *.
  destruct (String.eqb_spec t "ReturnStatement") as [->|_]; [discriminate|].
  apply negb_true_iff in Harrow. rewrite Harrow.
  destruct fuel as [|[|fuel]]; try lia.
  destruct (String.eqb t "FunctionExpression"),
           (String.eqb t "FunctionDeclaration"),
           (String.eqb t "ArrowFunctionExpression"),
           (String.eqb t "MethodDefinition"); try discriminate;
    cbn [negb andb]; unfold traverse, Estraverse.traverse;
    cbn [loop node]; rewrite Hbody; reflexivity.
Qed.

(** C5.  For the method [m() { return 1; }] of a class,
    [traverseReturns] reports nothing: a [MethodDefinition] node keeps its
    function under [value] and has no [body], so there is no walk, although
    the method's block body holds a return statement. *)
Theorem traverseReturns_method_definition :
  traverseReturns (walkFuel methodWithReturn) methodWithReturn record [] = Done []
  /\ get "body" methodWithReturn = VUndefined
  /\ returnPoints (get "body" (get "value" methodWithReturn))
     = [returnStatement (literal 1)].
Proof. repeat split; vm_compute; reflexivity. Qed.

(** C6.  On [function f() { do { return 1; } while (x) }] the walk
    reports nothing: [enter] lists [ForStatement] and [WhileStatement]
    among the nodes to look through and leaves every other loop form to
    [default: this.skip()], so the return statement, which lies in a loop
    of the function's own body, is not handed to [onReturn].  The same
    body with a [while] loop reports it. *)
Theorem traverseReturns_skips_do_while :
  traverseReturns (walkFuel (get "body" returnInDoWhile)) returnInDoWhile record []
  = Done []
  /\ reaches throughAllLoops (get "body" returnInDoWhile) (returnStatement (literal 1))
  /\ traverseReturns (walkFuel (get "body" returnInWhile)) returnInWhile record []
     = Done [literal 1].
Proof.
  split; [vm_compute; reflexivity|]. split; [|vm_compute; reflexivity].
  apply returnsThrough_reaches. vm_compute. left. reflexivity.
Qed.

(** C7.  When a call of [onReturn] invokes the stop callback, that call is
    the last one: the calls made are those for the return points before
    it and the one for it, and none for the return points after it. *)
Theorem traverseReturns_stop {St} (onReturn : OnReturn St) (fn : value)
    (fuel : nat) (s s1 s2 : St) (before after : list value) (r : value) :
  walksBody fn = true ->
  walkFuel (get "body" fn) <= fuel ->
  returnPoints (get "body" fn) = before ++ r :: after ->
  forEachUntil onReturn (map (get "argument") before) s = (s1, false) ->
  onReturn (get "argument" r) s1 = (s2, true) ->
  traverseReturns fuel fn (traced onReturn) (s, []) =
    Done (s2, map (get "argument") before ++ [get "argument" r]).
Proof.
  intros Hw Hfuel Hpoints Hbefore Hstop.
  rewrite traverseReturns_walk by assumption.
  rewrite Hpoints, map_app, forEachUntil_app.
  rewrite (forEachUntil_traced _ _ _ [] _ Hbefore). cbv zeta. cbn [fst snd map app].
  cbn [forEachUntil traced]. rewrite Hstop. reflexivity.
Qed.

(** In [function f() { return 1; return 2; return 3; }] a caller that
    stops at [2] is called with [1] and [2] only. *)
Lemma traverseReturns_stop_witness :
  walksBody threeReturns = true
  /\ walkFuel (get "body" threeReturns) <= 19
  /\ returnPoints (get "body" threeReturns)
     = [returnStatement (literal 1)] ++ returnStatement (literal 2)
       :: [returnStatement (literal 3)]
  /\ forEachUntil stopAtTwo [literal 1] 0 = (1, false)
  /\ stopAtTwo (literal 2) 1 = (2, true)
  /\ traverseReturns 19 threeReturns (traced stopAtTwo) (0, [])
     = Done (2, [literal 1; literal 2]).
Proof.
  split; [reflexivity|]. split; [vm_compute; lia|].
  split; [vm_compute; reflexivity|]. split; [reflexivity|]. split; [reflexivity|].
  apply (traverseReturns_stop stopAtTwo threeReturns 19 0 1 2
           [returnStatement (literal 1)] [returnStatement (literal 3)]
           (returnStatement (literal 2)));
    [reflexivity | vm_compute; lia | vm_compute; reflexivity
     | reflexivity | reflexivity].
Defined.

(** C10 (amended).  For every visitor, [traverse] is the walker run with
    options whose key table maps [JSXElement] and [JSXFragment] to
    [['children']] whatever the visitor supplies for them, and these are
    the child keys the walker finds for the two types.  For every other
    type but [__proto__] the table holds what the visitor's own [keys]
    holds, and what it holds is what the walker finds; an entry of the
    visitor for [__proto__] is not in the table. *)
Theorem traverse_hands_over_keys {St} (visitor : Visitor St) :
  exists (handed : Visitor St) (table : gmap string (list string)),
    (forall fuel ASTnode s,
       traverse fuel ASTnode visitor s = Estraverse.traverse handed fuel ASTnode s)
    /\ keys handed = Some table
    /\ table !! "JSXElement" = Some ["children"]
    /\ table !! "JSXFragment" = Some ["children"]
    /\ __keys handed "JSXElement" = Some ["children"]
    /\ __keys handed "JSXFragment" = Some ["children"]
    /\ (forall t, t <> "JSXElement" -> t <> "JSXFragment" -> t <> "__proto__" ->
          table !! t = match keys visitor with
                       | Some own => own !! t
                       | None => None
                       end)
    /\ (forall t ks, t <> "JSXElement" -> t <> "JSXFragment" -> t <> "__proto__" ->
          match keys visitor with
          | Some own => own !! t
          | None => None
          end = Some ks ->
          __keys handed t = Some ks)
    /\ table !! "__proto__" = None.
Proof.
  exists (opts visitor), (optsKeys (keys visitor)).
  assert (Hel : optsKeys (keys visitor) !! "JSXElement" = Some ["children"]).
  { unfold optsKeys. rewrite lookup_insert_ne by discriminate. apply lookup_insert_eq. }
  assert (Hfr : optsKeys (keys visitor) !! "JSXFragment" = Some ["children"]).
  { unfold optsKeys. apply lookup_insert_eq. }
  assert (Hother : forall t,
            t <> "JSXElement" -> t <> "JSXFragment" -> t <> "__proto__" ->
            optsKeys (keys visitor) !! t
            = match keys visitor with
              | Some own => own !! t
              | None => None
              end).
  { intros t Hel' Hfr' Hproto. unfold optsKeys.
    rewrite !lookup_insert_ne, lookup_delete_ne by congruence.
    destruct (keys visitor); [reflexivity | apply lookup_empty]. }
  split; [reflexivity|]. split; [reflexivity|].
  split; [exact Hel|]. split; [exact Hfr|].
  split; [unfold __keys; cbn [keys opts]; rewrite Hel; reflexivity|].
  split; [unfold __keys; cbn [keys opts]; rewrite Hfr; reflexivity|].
  split; [exact Hother|]. split.
  - intros t ks Hel' Hfr' Hproto Hown. unfold __keys. cbn [keys opts].
    destruct (String.eqb_spec t "__proto__") as [->|_]; [congruence|].
    rewrite (Hother t Hel' Hfr' Hproto), Hown. reflexivity.
  - unfold optsKeys. rewrite !lookup_insert_ne by discriminate. apply lookup_delete_eq.
Qed.

(** A visitor's own entry for [JSXElement] is replaced, its entry for
    [Literal] is kept. *)
Lemma traverse_hands_over_keys_witness :
  "Literal" <> "JSXElement" /\ "Literal" <> "JSXFragment" /\ "Literal" <> "__proto__"
  /\ exists handed table,
       (forall fuel ASTnode s,
          traverse fuel ASTnode visitorWithKeys s
          = Estraverse.traverse handed fuel ASTnode s)
       /\ keys handed = Some table
       /\ table !! "JSXElement" = Some ["children"]
       /\ table !! "Literal" = Some ["raw"]
       /\ __keys handed "Literal" = Some ["raw"].
Proof.
  split; [discriminate|]. split; [discriminate|]. split; [discriminate|].
  destruct (traverse_hands_over_keys visitorWithKeys)
    as (handed & table & Hrun & Htable & Hel & _ & _ & _ & Hother & Hfound & _).
  exists handed, table. split; [exact Hrun|]. split; [exact Htable|].
  split; [exact Hel|]. split.
  - rewrite (Hother "Literal") by discriminate. vm_compute. reflexivity.
  - apply Hfound; try discriminate. vm_compute. reflexivity.
Defined.

(** C10 as first stated fails for a visitor whose [keys] has an entry for
    the type [__proto__]: [Object.assign] does not copy it, so it is not
    among the options handed over and a node of that type is not looked
    into, while the entry for [Wrapper], with the same child field, is
    kept and used. *)
Lemma traverse_drops_proto_key :
  (keys visitorWithProtoKey ≫= (.!! "__proto__")) = Some ["inner"]
  /\ (keys (opts visitorWithProtoKey) ≫= (.!! "__proto__"))
     <> (keys visitorWithProtoKey ≫= (.!! "__proto__"))
  /\ traverse 10 (wrapping "__proto__") visitorWithProtoKey []
     = Done [wrapping "__proto__"]
  /\ traverse 10 (wrapping "Wrapper") visitorWithProtoKey []
     = Done [wrapping "Wrapper"; identifier "x"].
Proof.
  split; [vm_compute; reflexivity|]. split; [vm_compute; discriminate|].
  split; vm_compute; reflexivity.
Qed.

(** ** The first token in a line *)

Import ESLint AstUtilTokens.

(** The loop of [getFirstNodeInLine] ends for every token stream, with a
    token or with the [TypeError]. *)
Lemma firstNodeInLineFrom_outcome sourceCode range :
  (exists token, firstNodeInLineFrom sourceCode range = Done token)
  \/ firstNodeInLineFrom sourceCode range = Thrown "TypeError".
Proof.
  funelim (firstNodeInLineFrom sourceCode range).
  - destruct (isBlankJSXText _); [assumption|]. left. eauto.
  - right. reflexivity.
Qed.

(** With no token before the node, [getTokenBefore] gives [null] and the
    read of [token.type] throws. *)
Lemma getFirstNodeInLine_no_token_before sourceCode node :
  getTokenBefore sourceCode (Node.range node) = None ->
  getFirstNodeInLine sourceCode node = Thrown "TypeError".
Proof.
  unfold getFirstNodeInLine. intros Hnone.
  funelim (firstNodeInLineFrom sourceCode (Node.range node)).
  - congruence.
  - reflexivity.
Qed.

(** C9.  For the program [<a/>], whose [JSXElement] starts the token
    stream, [getFirstNodeInLine] does not return: there is no token before
    the node, and the call, and [isNodeFirstInLine] with it, ends in a
    [TypeError]. *)
Theorem getFirstNodeInLine_throws_at_stream_start :
  getTokenBefore jsxAtStart (Node.range jsxAtStart_element) = None
  /\ getFirstNodeInLine jsxAtStart jsxAtStart_element = Thrown "TypeError"
  /\ isNodeFirstInLine jsxAtStart jsxAtStart_element = Thrown "TypeError".
Proof.
  assert (Hnone : getTokenBefore jsxAtStart (Node.range jsxAtStart_element) = None)
    by reflexivity.
  split; [exact Hnone|].
  pose proof (getFirstNodeInLine_no_token_before _ _ Hnone) as Hthrow.
  split; [exact Hthrow|]. unfold isNodeFirstInLine. rewrite Hthrow. reflexivity.
Qed.

(** A node with a token before it on its line is fine. *)
Example getFirstNodeInLine_after_token :
  exists token,
    getFirstNodeInLine jsxAtStart jsxAtStart_name = Done token
    /\ Token.value token = "<"
    /\ isNodeFirstInLine jsxAtStart jsxAtStart_name = Done false.
Proof.
  exists (token "Punctuator" "<" 0 1 1 0). repeat split; vm_compute; reflexivity.
Qed.

(** ** The [dot-location] rule *)

Import DotLocation.

Lemma onObject_unset_or_object context :
  head (options context) = None \/ head (options context) = Some "object" ->
  onObject context = true.
Proof. unfold onObject. intros [-> | ->]; reflexivity. Qed.

Lemma reports_not_extended (context : Context) (r : Report) :
  reports context <> reports context ++ [r].
Proof.
  intros Heq. apply (f_equal (@length Report)) in Heq.
  rewrite length_app in Heq. cbn [length] in Heq. lia.
Qed.

(** What [checkDotLocation] does when the dot is to be on the object's
    line and both tokens exist. *)
Lemma checkDotLocation_onObject context node dotToken tokenBeforeDot :
  onObject context = true ->
  getTokenBefore (sourceCode context)
    (Node.range (MemberExpression.property node)) = Some dotToken ->
  getTokenBefore (sourceCode context) (Token.range dotToken) = Some tokenBeforeDot ->
  checkDotLocation context node =
  if isTokenOnSameLine (Some (Token.loc tokenBeforeDot)) (Token.loc dotToken)
  then context
  else
    report
      (mkReport node (Token.loc dotToken) expectedDotAfterObject
         [ RuleFixer.insertTextAfter (Token.range tokenBeforeDot)
             ((if String.prefix "." (Token.value dotToken)
                  && isDecimalIntegerNumericToken tokenBeforeDot
               then " " else "") +:+ Token.value dotToken);
           RuleFixer.remove (Token.range dotToken) ])
      context.
Proof.
  intros Hon Hdot Hbefore. unfold checkDotLocation. cbv zeta.
  rewrite Hon, Hdot, Hbefore.
  destruct (isTokenOnSameLine _ _); [reflexivity|]. cbn [negb].
  destruct (String.prefix "." (Token.value dotToken)
            && isDecimalIntegerNumericToken tokenBeforeDot); reflexivity.
Qed.

Lemma checkNode_member context node :
  MemberExpression.type node = "MemberExpression" ->
  MemberExpression.computed node = false ->
  checkNode context node = checkDotLocation context node.
Proof. unfold checkNode. intros -> ->. reflexivity. Qed.

(** C2.  With the option unset or ["object"], for a non-computed
    [MemberExpression] whose dot token has a token before it: a report
    with [expectedDotAfterObject] at the dot token's location is made if
    and only if the token before the dot is not on the dot's line; when it
    is on the dot's line the context is left as it was. *)
Theorem report_iff_dot_on_next_line (context : Context)
    (node : MemberExpression.t) (dotToken tokenBeforeDot : Token.t) :
  head (options context) = None \/ head (options context) = Some "object" ->
  MemberExpression.type node = "MemberExpression" ->
  MemberExpression.computed node = false ->
  getTokenBefore (sourceCode context)
    (Node.range (MemberExpression.property node)) = Some dotToken ->
  getTokenBefore (sourceCode context) (Token.range dotToken) = Some tokenBeforeDot ->
  ((exists r,
      reports (checkNode context node) = reports context ++ [r]
      /\ messageId r = expectedDotAfterObject
      /\ loc r = Token.loc dotToken)
   <-> isTokenOnSameLine (Some (Token.loc tokenBeforeDot)) (Token.loc dotToken) = false)
  /\ (isTokenOnSameLine (Some (Token.loc tokenBeforeDot)) (Token.loc dotToken) = true ->
      checkNode context node = context).
Proof.
  intros Hconfig Htype Hcomputed Hdot Hbefore.
  apply onObject_unset_or_object in Hconfig.
  rewrite (checkNode_member _ _ Htype Hcomputed).
  rewrite (checkDotLocation_onObject _ _ _ _ Hconfig Hdot Hbefore).
  destruct (isTokenOnSameLine _ _).
  - split; [|reflexivity]. split; [|discriminate].
    intros (r & Hr & _). exfalso. exact (reports_not_extended _ _ Hr).
  - split; [|discriminate]. split; [reflexivity|]. intros _.
    eexists. split; [reflexivity|]. split; reflexivity.
Qed.

(** [foo], line break, [.bar()] with no option: one report, at the dot. *)
Lemma report_iff_dot_on_next_line_witness :
  let context := mkContext [] dotOnPropertyLine [] in
  (head (options context) = None \/ head (options context) = Some "object")
  /\ MemberExpression.type dotOnPropertyLine_member = "MemberExpression"
  /\ MemberExpression.computed dotOnPropertyLine_member = false
  /\ getTokenBefore dotOnPropertyLine
       (Node.range (MemberExpression.property dotOnPropertyLine_member))
     = Some (token "Punctuator" "." 4 5 2 0)
  /\ getTokenBefore dotOnPropertyLine (4, 5) = Some (token "Identifier" "foo" 0 3 1 0)
  /\ exists r,
       reports (checkNode context dotOnPropertyLine_member) = [r]
       /\ messageId r = expectedDotAfterObject
       /\ loc r = Token.loc (token "Punctuator" "." 4 5 2 0).
Proof.
  intros context.
  split; [left; reflexivity|]. split; [reflexivity|]. split; [reflexivity|].
  split; [reflexivity|]. split; [reflexivity|].
  apply (proj1 (report_iff_dot_on_next_line context dotOnPropertyLine_member
                  (token "Punctuator" "." 4 5 2 0) (token "Identifier" "foo" 0 3 1 0)
                  (or_introl eq_refl) eq_refl eq_refl eq_refl eq_refl)).
  reflexivity.
Defined.

(** C3 (amended).  In the fix of an [expectedDotAfterObject] report the
    dot token's text is inserted after [tokenBeforeDot] with one space in
    front exactly when the text starts with [.] and [tokenBeforeDot] is
    a decimal-integer [Numeric] token, and with nothing in front in every
    other case; the dot token is then removed.  The line break stays where
    it is: [1], line break, [.toString()] becomes [1 .], line break,
    [toString()]. *)
Theorem relocated_dot_edits (context : Context) (node : MemberExpression.t)
    (dotToken tokenBeforeDot : Token.t) :
  onObject context = true ->
  MemberExpression.type node = "MemberExpression" ->
  MemberExpression.computed node = false ->
  getTokenBefore (sourceCode context)
    (Node.range (MemberExpression.property node)) = Some dotToken ->
  getTokenBefore (sourceCode context) (Token.range dotToken) = Some tokenBeforeDot ->
  isTokenOnSameLine (Some (Token.loc tokenBeforeDot)) (Token.loc dotToken) = false ->
  exists r,
    reports (checkNode context node) = reports context ++ [r]
    /\ fix_ r =
       [ RuleFixer.insertTextAfter (Token.range tokenBeforeDot)
           ((if String.prefix "." (Token.value dotToken)
                && isDecimalIntegerNumericToken tokenBeforeDot
             then " " else "") +:+ Token.value dotToken);
         RuleFixer.remove (Token.range dotToken) ].
Proof.
  intros Hon Htype Hcomputed Hdot Hbefore Hline.
  rewrite (checkNode_member _ _ Htype Hcomputed).
  rewrite (checkDotLocation_onObject _ _ _ _ Hon Hdot Hbefore), Hline.
  eexists. split; reflexivity.
Qed.

(** [1], line break, [.toString()]: the dot moves up with a space. *)
Lemma relocated_dot_edits_witness :
  let context := mkContext [] numberThenDot [] in
  onObject context = true
  /\ MemberExpression.type numberThenDot_member = "MemberExpression"
  /\ MemberExpression.computed numberThenDot_member = false
  /\ getTokenBefore numberThenDot
       (Node.range (MemberExpression.property numberThenDot_member))
     = Some (token "Punctuator" "." 2 3 2 0)
  /\ getTokenBefore numberThenDot (2, 3) = Some (token "Numeric" "1" 0 1 1 0)
  /\ isTokenOnSameLine (Some (Token.loc (token "Numeric" "1" 0 1 1 0)))
       (Token.loc (token "Punctuator" "." 2 3 2 0)) = false
  /\ exists r,
       reports (checkNode context numberThenDot_member) = [r]
       /\ fix_ r = [RuleFixer.mkFix (1, 1) " ."; RuleFixer.mkFix (2, 3) ""]
       /\ fixedText context r = Some ("1 ." +:+ nl +:+ "toString()").
Proof.
  intros context. repeat (split; [reflexivity|]).
  destruct (relocated_dot_edits context numberThenDot_member
              (token "Punctuator" "." 2 3 2 0) (token "Numeric" "1" 0 1 1 0)
              eq_refl eq_refl eq_refl eq_refl eq_refl eq_refl) as (r & Hr & Hfix).
  exists r. split; [exact Hr|]. split; [exact Hfix|].
  unfold fixedText. rewrite Hfix. reflexivity.
Defined.

(** C3 as first stated fails on [1], line break, [.toString()]: the
    fixed text is not [1 .toString()]. *)
Lemma relocated_dot_keeps_line_break :
  let context := mkContext [] numberThenDot [] in
  map (fixedText context) (reports (checkNode context numberThenDot_member))
  = [Some ("1 ." +:+ nl +:+ "toString()")]
  /\ map (fixedText context) (reports (checkNode context numberThenDot_member))
     <> [Some "1 .toString()"].
Proof. split; [reflexivity | vm_compute; discriminate]. Qed.

(** [(1)], line break, [.toString()]: no space is inserted. *)
Example parenthesized_number_edits :
  let context := mkContext [] parenthesizedNumberThenDot [] in
  map fix_ (reports (checkNode context parenthesizedNumberThenDot_member))
  = [[RuleFixer.mkFix (3, 3) "."; RuleFixer.mkFix (4, 5) ""]]
  /\ map (fixedText context)
         (reports (checkNode context parenthesizedNumberThenDot_member))
     = [Some ("(1)." +:+ nl +:+ "toString()")].
Proof. split; reflexivity. Qed.

(** [foo], line break, [.bar()] is fixed to [foo.], line break, [bar()]. *)
Example object_option_fixed_text :
  let context := mkContext ["object"] dotOnPropertyLine [] in
  map (fixedText context) (reports (checkNode context dotOnPropertyLine_member))
  = [Some ("foo." +:+ nl +:+ "bar()")].
Proof. reflexivity. Qed.

(** C4.  With [onObject] false, for a non-computed [MemberExpression]: a
    report with [expectedDotBeforeProperty] at the dot token's location is
    made if and only if the dot token exists and is not on the property's
    line, and its fix is two edits, the removal of the dot token and then
    the insertion of its text before the property. *)
Theorem report_iff_dot_on_previous_line (context : Context)
    (node : MemberExpression.t) :
  onObject context = false ->
  MemberExpression.type node = "MemberExpression" ->
  MemberExpression.computed node = false ->
  reports (checkNode context node) =
  reports context ++
  match getTokenBefore (sourceCode context)
          (Node.range (MemberExpression.property node)) with
  | Some dotToken =>
      if isTokenOnSameLine (Some (Token.loc dotToken))
           (Node.loc (MemberExpression.property node))
      then []
      else [ mkReport node (Token.loc dotToken) expectedDotBeforeProperty
               [ RuleFixer.remove (Token.range dotToken);
                 RuleFixer.insertTextBefore
                   (Node.range (MemberExpression.property node))
                   (Token.value dotToken) ] ]
  | None => []
  end.
Proof.
  intros Hoff Htype Hcomputed.
  rewrite (checkNode_member _ _ Htype Hcomputed).
  unfold checkDotLocation. cbv zeta. rewrite Hoff.
  destruct (getTokenBefore _ _) as [dotToken|]; cbn [option_map isTokenOnSameLine negb].
  - destruct (Nat.eqb _ _); cbn [negb]; [rewrite app_nil_r|]; reflexivity.
  - rewrite app_nil_r. reflexivity.
Qed.

(** [foo.], line break, [bar()] with ["property"] is fixed to [foo], line
    break, [.bar()]. *)
Lemma report_iff_dot_on_previous_line_witness :
  let context := mkContext ["property"] dotOnObjectLine [] in
  onObject context = false
  /\ MemberExpression.type dotOnObjectLine_member = "MemberExpression"
  /\ MemberExpression.computed dotOnObjectLine_member = false
  /\ reports (checkNode context dotOnObjectLine_member)
     = [ mkReport dotOnObjectLine_member
           (Token.loc (token "Punctuator" "." 3 4 1 3)) expectedDotBeforeProperty
           [RuleFixer.mkFix (3, 4) ""; RuleFixer.mkFix (5, 5) "."] ]
  /\ map (fixedText context) (reports (checkNode context dotOnObjectLine_member))
     = [Some ("foo" +:+ nl +:+ ".bar()")].
Proof.
  intros context.
  split; [reflexivity|]. split; [reflexivity|]. split; [reflexivity|].
  assert (Hreports := report_iff_dot_on_previous_line context dotOnObjectLine_member
                        eq_refl eq_refl eq_refl).
  split; [exact Hreports|]. rewrite Hreports. reflexivity.
Defined.

(** C8.  A node that is computed, or whose type is not
    [MemberExpression], is not checked: the context, and so the reports,
    stay as they were, whatever the option. *)
Theorem computed_or_other_ignored (context : Context) (node : MemberExpression.t) :
  MemberExpression.computed node = true
  \/ MemberExpression.type node <> "MemberExpression" ->
  checkNode context node = context.
Proof.
  unfold checkNode. intros [-> | Hty].
  - rewrite andb_false_r. reflexivity.
  - destruct (String.eqb_spec (MemberExpression.type node) "MemberExpression");
      [contradiction | reflexivity].
Qed.

(** [obj], line break, [[prop]] is not reported under either option. *)
Lemma computed_or_other_ignored_witness :
  (MemberExpression.computed computedAccess_member = true
   \/ MemberExpression.type computedAccess_member <> "MemberExpression")
  /\ reports (checkNode (mkContext ["object"] computedAccess [])
                computedAccess_member) = []
  /\ reports (checkNode (mkContext ["property"] computedAccess [])
                computedAccess_member) = [].
Proof.
  split; [left; reflexivity|]. split.
  - rewrite (computed_or_other_ignored _ computedAccess_member (or_introl eq_refl)).
    reflexivity.
  - rewrite (computed_or_other_ignored _ computedAccess_member (or_introl eq_refl)).
    reflexivity.
Defined.


(* ===================================================================== *)
(** * Further properties *)
(* ===================================================================== *)

(** ** [traverse] as a recursive walk *)

Import Estraverse AstUtil PreOrder.

Lemma execute_parent {St} (cb : option (Callback St)) e ll s :
  __execute cb e ll s = __execute cb e [mkElement (parentOf ll) None] s.
Proof. destruct ll; reflexivity. Qed.

Lemma candidateElements_candidateNodes nodeType key c :
  candidateElements nodeType key c = map Work (candidateNodes nodeType key c).
Proof.
  unfold candidateElements, candidateNodes.
  destruct (negb (truthy c)); [reflexivity|].
  destruct c as [| |b|n|str|elems|props];
    try (destruct (isNode _); reflexivity).
  induction elems as [|x xs IH]; [reflexivity|].
  cbn [flat_map]. rewrite map_app, IH. f_equal.
  destruct (negb (truthy x)); [reflexivity|].
  destruct (isProperty nodeType key); [reflexivity|].
  destruct (isNode x); reflexivity.
Qed.

Lemma childElements_candidateNodes nodeType n ks :
  childElements nodeType n ks
  = map Work (flat_map (fun key => candidateNodes nodeType key (get key n)) ks).
Proof.
  unfold childElements. induction ks as [|k ks IH]; [reflexivity|].
  cbn [flat_map]. rewrite map_app, IH, candidateElements_candidateNodes. reflexivity.
Qed.

(** The lookup of the child fields in the loop, with the options that
    [traverse] builds, is [childrenOf]. *)
Lemma lookup_childrenOf {St} (visitor : Visitor St) e
    (next : list WorkItem -> Outcome St) :
  match ToString (nodeTypeOf e) with
  | None => Thrown "TypeError"
  | Some name =>
      match
        match __keys (opts visitor) name with
        | Some ks => Some ks
        | None =>
            match __fallback (opts visitor) with
            | Some fb => Some (fb (node e))
            | None => None
            end
        end
      with
      | None => Thrown ("Unknown node type " +:+ name +:+ ".")
      | Some ks => next (childElements (nodeTypeOf e) (node e) ks)
      end
  end
  = match childrenOf visitor e with
    | Ok children => next (map Work children)
    | Raise error => Thrown error
    end.
Proof.
  unfold childrenOf, childKeys.
  destruct (ToString (nodeTypeOf e)) as [name|]; [|reflexivity].
  destruct (__keys (opts visitor) name) as [ks|].
  { rewrite childElements_candidateNodes. reflexivity. }
  unfold __fallback, opts. cbn [fallback].
  destruct (fallback visitor) as [[f|v]|];
    try (rewrite childElements_candidateNodes; reflexivity).
  destruct (is_str v "iteration"); [|reflexivity].
  rewrite childElements_candidateNodes. reflexivity.
Qed.

Lemma entry_In {A} i (l : list A) x : entry i l = Some x -> In x l.
Proof.
  unfold entry. destruct (_ <? _)%N; [|discriminate]. apply nth_error_In.
Qed.

(** What a property holds is smaller than the value that has it. *)
Lemma get_size key n : size (get key n) <= Nat.pred (size n).
Proof.
  destruct n as [| |b|z|str|elems|props]; try (cbn; lia).
  - cbn [get]. destruct (String.eqb key "length"); [cbn; lia|].
    destruct (arrayIndex key) as [i|]; [|cbn; lia].
    destruct (entry i (list_ascii_of_string str)) as [c|]; cbn; lia.
  - cbn [get]. destruct (String.eqb key "length"); [cbn; lia|].
    destruct (arrayIndex key) as [i|]; [|cbn; lia].
    destruct (entry i elems) as [x|] eqn:Hx; [|cbn; lia].
    apply entry_In, sizes_In in Hx. rewrite size_VArr.
    change (size x <= sizes elems). exact Hx.
  - cbn [get]. pose proof (assoc_size key props). rewrite size_VObj. cbn [Nat.pred]. lia.
Qed.

Lemma candidateNodes_size nodeType key c x :
  In x (candidateNodes nodeType key c) -> size (node x) <= size c /\ 0 < size c.
Proof.
  unfold candidateNodes. destruct (negb (truthy c)); [intros []|].
  destruct c as [| |b|n|str|elems|props];
    try (destruct (isNode _) eqn:Hnode; [discriminate Hnode | intros []]).
  - intros Hin. apply in_flat_map in Hin as (y & Hy & Hin).
    apply sizes_In in Hy. rewrite size_VArr. split; [|lia].
    destruct (negb (truthy y)); [destruct Hin|].
    destruct (isProperty nodeType key); [destruct Hin as [<-|[]]; cbn [node]; lia|].
    destruct (isNode y); [destruct Hin as [<-|[]]; cbn [node]; lia | destruct Hin].
  - destruct (isNode (VObj props)); [|intros []].
    intros [<-|[]]. cbn [node]. rewrite size_VObj. lia.
Qed.

Lemma childrenOf_size {St} (visitor : Visitor St) e children x :
  childrenOf visitor e = Ok children ->
  In x children -> size (node x) < size (node e).
Proof.
  unfold childrenOf. destruct (childKeys visitor e) as [ks|]; [|discriminate].
  intros [= <-] Hin. apply in_flat_map in Hin as (key & _ & Hin).
  apply candidateNodes_size in Hin. pose proof (get_size key (node e)). lia.
Qed.

Section VisitFacts.
Context {St : Type}.
Variable visitor : Visitor St.

Lemma visit_children d ll :
  (forall e s, size (node e) < d ->
     exists k, forall f wl,
       loop (opts visitor) (k + f) (Work e :: wl) ll s =
       thenRest visitor f wl ll (visitUpTo visitor d (parentOf ll) e s)) ->
  forall cs s, (forall c, In c cs -> size (node c) < d) ->
    exists k, forall f wl,
      loop (opts visitor) (k + f) (map Work cs ++ wl) ll s =
      thenRest visitor f wl ll (foldVisit (visitUpTo visitor d (parentOf ll)) cs s).
Proof.
  intros Hone cs. induction cs as [|c cs IH]; intros s Hcs.
  - exists 0. intros. reflexivity.
  - destruct (Hone c s) as (kc & Hrun); [apply Hcs; left; reflexivity|].
    cbn [foldVisit].
    destruct (visitUpTo visitor d (parentOf ll) c s) as [s'|s'|error] eqn:Hvisit.
    + destruct (IH s') as (K & Hrest).
      { intros c' Hin. apply Hcs. right. exact Hin. }
      exists (kc + K). intros f wl. cbn [map app].
      replace (kc + K + f) with (kc + (K + f)) by lia.
      rewrite Hrun. cbn [thenRest]. apply Hrest.
    + exists kc. intros f wl. cbn [map app]. rewrite Hrun. reflexivity.
    + exists kc. intros f wl. cbn [map app]. rewrite Hrun. reflexivity.
Qed.

Lemma leave_element f e wl ll s :
  loop (opts visitor) (S f) (Sentinel :: wl) (e :: ll) s =
  thenRest visitor f wl ll
    (let left := __execute (leave visitor) e [mkElement (parentOf ll) None] s in
     if asks is_Break left then Broke (user (fst left)) else GoOn (user (fst left))).
Proof.
  rewrite <- execute_parent. cbn [loop leave opts].
  destruct (__execute (leave visitor) e ll s) as [c ret].
  unfold asks. cbn [fst snd].
  destruct (is_Break (__state c) || is_Break ret); reflexivity.
Qed.

Lemma visit_element d : forall ll e s, size (node e) < d ->
  exists k, forall f wl,
    loop (opts visitor) (k + f) (Work e :: wl) ll s =
    thenRest visitor f wl ll (visitUpTo visitor d (parentOf ll) e s).
Proof.
  induction d as [|d IH]; intros ll e s Hsz; [lia|].
  cbn [visitUpTo]. destruct (truthy (node e)) eqn:Ht; cbn [negb].
  2:{ exists 1. intros f wl. cbn [Nat.add loop]. rewrite Ht. reflexivity. }
  rewrite <- (execute_parent (enter visitor)).
  destruct (__execute (enter visitor) e ll s) as [c ret] eqn:Henter.
  cbn [fst snd].
  change (asks is_Break (c, ret)) with (is_Break (__state c) || is_Break ret).
  change (asks is_Skip (c, ret)) with (is_Skip (__state c) || is_Skip ret).
  destruct (is_Break (__state c) || is_Break ret) eqn:Hbreak.
  { exists 1. intros f wl. cbn [Nat.add]. rewrite loop_enter by exact Ht.
    cbn [enter opts]. rewrite Henter, Hbreak. reflexivity. }
  destruct (is_Skip (__state c) || is_Skip ret) eqn:Hskip.
  { exists 2. intros f wl. cbn [Nat.add]. rewrite loop_enter by exact Ht.
    cbn [enter opts]. rewrite Henter, Hbreak, Hskip.
    apply leave_element. }
  destruct (childrenOf visitor e) as [children|error] eqn:Hchildren.
  2:{ exists 1. intros f wl. cbn [Nat.add]. rewrite loop_enter by exact Ht.
      cbn [enter opts]. rewrite Henter, Hbreak, Hskip.
      fold (opts visitor).
      rewrite (lookup_childrenOf visitor e
                 (fun items => loop (opts visitor) f (items ++ Sentinel :: wl)
                                    (e :: ll) (user c))).
      rewrite Hchildren. reflexivity. }
  destruct (visit_children d (e :: ll) (fun e' s' H => IH (e :: ll) e' s' H)
              children (user c)) as (K & Hrun).
  { intros x Hx. apply (childrenOf_size _ _ _ _ Hchildren) in Hx. lia. }
  cbn [parentOf] in Hrun.
  exists (S (K + 1)). intros f wl. cbn [Nat.add]. rewrite loop_enter by exact Ht.
  cbn [enter opts]. rewrite Henter, Hbreak, Hskip.
  fold (opts visitor).
  rewrite (lookup_childrenOf visitor e
             (fun items => loop (opts visitor) (K + 1 + f) (items ++ Sentinel :: wl)
                                (e :: ll) (user c))).
  rewrite Hchildren.
  replace (K + 1 + f) with (K + S f) by lia. rewrite Hrun.
  destruct (foldVisit (visitUpTo visitor d (node e)) children (user c))
    as [s1|s1|error]; try reflexivity.
  cbn [thenRest]. apply leave_element.
Qed.

End VisitFacts.

Lemma loop_more_fuel {St} (U : Visitor St) f : forall wl ll s r,
  loop U f wl ll s = r -> r <> OutOfFuel ->
  forall k, loop U (f + k) wl ll s = r.
Proof.
  induction f as [|f IH]; intros wl ll s r Hrun Hr k.
  - cbn in Hrun. congruence.
  - cbn [Nat.add]. cbn [loop] in *.
    repeat match type of Hrun with
    | context [match ?x with _ => _ end] => destruct x eqn:?
    | context [if ?x then _ else _] => destruct x eqn:?
    end; try exact Hrun; apply IH; assumption.
Qed.

Lemma traverse_large_fuel {St} (visitor : Visitor St) root s :
  exists fuel0, forall fuel, fuel0 <= fuel ->
    traverse fuel root visitor s = visit visitor root s.
Proof.
  destruct (visit_element visitor (S (size root)) [mkElement VNull None]
              (mkElement root None) s) as (k & Hrun); [cbn [node]; lia|].
  exists (k + 1). intros fuel Hfuel.
  unfold traverse, Estraverse.traverse, visit.
  replace fuel with (k + S (fuel - k - 1)) by lia. rewrite Hrun.
  cbn [parentOf node]. destruct (visitUpTo _ _ _ _ _); reflexivity.
Qed.

(** With a fallback it can use, the walker throws nothing but the
    [TypeError] of a type that cannot be made a property name. *)
Lemma loop_throws_type_error {St} (visitor : Visitor St) :
  usableFallback visitor = true ->
  forall f wl ll s error,
    loop (opts visitor) f wl ll s = Thrown error -> error = "TypeError".
Proof.
  intros Husable.
  assert (Hfb : exists fb, __fallback (opts visitor) = Some fb).
  { unfold usableFallback in Husable. unfold __fallback, opts. cbn [fallback].
    destruct (fallback visitor) as [[f|v]|]; eauto.
    rewrite Husable. eauto. }
  destruct Hfb as (fb & Hfb).
  induction f as [|f IH]; intros wl ll s error Hrun; [discriminate|].
  destruct wl as [|[|e] wl].
  - discriminate.
  - cbn [loop] in Hrun. destruct ll as [|e ll].
    + destruct (leave (opts visitor)); [congruence | eapply IH; exact Hrun].
    + destruct (__execute (leave (opts visitor)) e ll s) as [c ret].
      destruct (is_Break (__state c) || is_Break ret); [discriminate|].
      eapply IH; exact Hrun.
  - destruct (truthy (node e)) eqn:Ht.
    2:{ cbn [loop] in Hrun. rewrite Ht in Hrun. eapply IH; exact Hrun. }
    rewrite loop_enter in Hrun by exact Ht.
    destruct (__execute (enter (opts visitor)) e ll s) as [c ret].
    destruct (is_Break (__state c) || is_Break ret); [discriminate|].
    destruct (is_Skip (__state c) || is_Skip ret); [eapply IH; exact Hrun|].
    destruct (ToString (nodeTypeOf e)) as [name|]; [|congruence].
    rewrite Hfb in Hrun.
    destruct (__keys (opts visitor) name); eapply IH; exact Hrun.
Qed.

Lemma foldVisit_collect {A} (step : A -> list value -> Visit (list value))
    (nodes : A -> list value * option string) l seen :
  (forall x seen', In x l -> step x seen' = recordedVisit seen' (nodes x)) ->
  foldVisit step l seen = recordedVisit seen (collect nodes l).
Proof.
  revert seen. induction l as [|x l IH]; intros seen Hstep.
  - cbn [foldVisit collect recordedVisit]. rewrite app_nil_r. reflexivity.
  - cbn [foldVisit collect]. rewrite Hstep by (left; reflexivity).
    destruct (nodes x) as [found [error|]]; [reflexivity|].
    cbn [recordedVisit]. rewrite IH by (intros y seen' Hy; apply Hstep; right; exact Hy).
    destruct (collect nodes l) as [others [error|]]; cbn [recordedVisit fst snd];
      [reflexivity|]. rewrite app_assoc. reflexivity.
Qed.

Lemma visitUpTo_recorder fb ks d : forall parent e seen,
  visitUpTo (recorder fb ks) d parent e seen
  = recordedVisit seen (preorderUpTo (recorder fb ks) d e).
Proof.
  induction d as [|d IH]; intros parent e seen.
  - cbn [visitUpTo preorderUpTo recordedVisit]. rewrite app_nil_r. reflexivity.
  - cbn [visitUpTo preorderUpTo]. destruct (truthy (node e)); cbn [negb];
      [|cbn [recordedVisit]; rewrite app_nil_r; reflexivity].
    cbn [__execute recorder enter leave recordNodes asks fst snd user __state
         is_Break is_Skip orb].
    destruct (childrenOf (recorder fb ks) e) as [children|error]; [|reflexivity].
    rewrite (foldVisit_collect _ (preorderUpTo (recorder fb ks) d))
      by (intros; apply IH).
    destruct (collect (preorderUpTo (recorder fb ks) d) children)
      as [under [error|]]; cbn [recordedVisit fst snd]; [reflexivity|].
    rewrite <- app_assoc. reflexivity.
Qed.



(** X2.  For a visitor that has no [fallback] of its own, or has a
    function or ['iteration'], [traverse] never ends in "Unknown node
    type", whatever the root and the number of steps: a node of a type
    the walker does not know is handled by the fallback. *)
Theorem traverse_knows_every_type {St} (visitor : Visitor St) (root : value)
    (s : St) (fuel : nat) (name : string) :
  usableFallback visitor = true ->
  traverse fuel root visitor s <> Thrown ("Unknown node type " +:+ name +:+ ".").
Proof.
  intros Husable Hrun.
  apply (loop_throws_type_error visitor Husable) in Hrun. discriminate Hrun.
Qed.

Lemma traverse_knows_every_type_witness :
  usableFallback typeLogger = true
  /\ traverse 20 jsxElement typeLogger [] <> Thrown "Unknown node type JSXText.".
Proof.
  split; [reflexivity|].
  apply (traverse_knows_every_type typeLogger jsxElement [] 20 "JSXText").
  reflexivity.
Defined.



(** ** More on [traverseReturns] *)

Import ReturnPoints Examples.

Lemma forEachUntil_traced_prefix {St} (onReturn : OnReturn St) returned :
  forall s calls, exists made rest,
    returned = made ++ rest
    /\ fst (forEachUntil (traced onReturn) returned (s, calls))
       = (fst (forEachUntil onReturn made s), calls ++ made).
Proof.
  induction returned as [|r returned IH]; intros s calls.
  - exists [], []. split; [reflexivity|]. cbn. rewrite app_nil_r. reflexivity.
  - cbn [forEachUntil traced]. destruct (onReturn r s) as [s' stop] eqn:Hr.
    destruct stop.
    + exists [r], returned. split; [reflexivity|].
      cbn [forEachUntil fst]. rewrite Hr. reflexivity.
    + destruct (IH s' (calls ++ [r])) as (made & rest & -> & Hrun).
      exists (r :: made), rest. split; [reflexivity|].
      rewrite Hrun. cbn [forEachUntil]. rewrite Hr, <- app_assoc. reflexivity.
Qed.

(** X4.  Whatever [onReturn] does, the values it is called with are an
    initial part of the arguments of the body's return points, in their
    order: no other value is ever handed over, none is handed over twice,
    and none is passed over before a later one. *)
Theorem traverseReturns_calls_prefix {St} (onReturn : OnReturn St)
    (fn : value) (fuel : nat) (s : St) :
  walksBody fn = true ->
  walkFuel (get "body" fn) <= fuel ->
  exists made rest,
    map (get "argument") (returnPoints (get "body" fn)) = made ++ rest
    /\ traverseReturns fuel fn (traced onReturn) (s, [])
       = Done (fst (forEachUntil onReturn made s), made).
Proof.
  intros Hw Hfuel. rewrite traverseReturns_walk by assumption.
  destruct (forEachUntil_traced_prefix onReturn
              (map (get "argument") (returnPoints (get "body" fn))) s [])
    as (made & rest & Hsplit & Hrun).
  exists made, rest. split; [exact Hsplit|]. rewrite Hrun. reflexivity.
Qed.

(** In [function f() { return 1; return 2; return 3; }] a caller that
    stops at [2] sees [1] and [2], an initial part of [1], [2], [3]. *)
Lemma traverseReturns_calls_prefix_witness :
  walksBody threeReturns = true
  /\ walkFuel (get "body" threeReturns) <= 19
  /\ exists made rest,
       [literal 1; literal 2; literal 3] = made ++ rest
       /\ traverseReturns 19 threeReturns (traced stopAtTwo) (0, [])
          = Done (fst (forEachUntil stopAtTwo made 0), made).
Proof.
  split; [reflexivity|]. split; [vm_compute; lia|].
  apply (traverseReturns_calls_prefix stopAtTwo threeReturns 19 0);
    [reflexivity | vm_compute; lia].
Defined.

(** X5.  For every node that is not [null] or [undefined], and every
    [onReturn], [traverseReturns] ends normally within
    [2 * size body + 3] steps of the walker's loop: it neither throws nor
    runs on. *)
Theorem traverseReturns_terminates {St} (onReturn : OnReturn St)
    (ASTNode : value) (fuel : nat) (s : St) :
  ASTNode <> VUndefined ->
  ASTNode <> VNull ->
  walkFuel (get "body" ASTNode) <= fuel ->
  exists s', traverseReturns fuel ASTNode onReturn s = Done s'.
Proof.
  intros Hundefined Hnull Hfuel. unfold traverseReturns. cbv zeta.
  destruct ASTNode as [| |b|z|str|elems|props]; try congruence;
    (destruct (is_str _ "ReturnStatement"); [eauto|]);
    (destruct (is_str _ "ArrowFunctionExpression" && _); [eauto|]);
    (destruct (negb _ && _ && _ && _); [eauto|]);
    rewrite walk_root by exact Hfuel; eauto.
Qed.

Lemma traverseReturns_terminates_witness :
  nestedFunction <> VUndefined /\ nestedFunction <> VNull
  /\ walkFuel (get "body" nestedFunction) <= 40
  /\ exists seen, traverseReturns 40 nestedFunction record [] = Done seen.
Proof.
  split; [discriminate|]. split; [discriminate|]. split; [vm_compute; lia|].
  apply (traverseReturns_terminates record nestedFunction 40 []);
    [discriminate | discriminate | vm_compute; lia].
Defined.

(** X6.  A node of an accepted type whose [body] is missing or falsy gets
    no call at all, as soon as the loop may take two steps: this is so for
    every [MethodDefinition], which keeps its function under [value]. *)
Theorem traverseReturns_without_body {St} (onReturn : OnReturn St)
    (fn : value) (fuel : nat) (s : St) :
  walksBody fn = true ->
  truthy (get "body" fn) = false ->
  2 <= fuel ->
  traverseReturns fuel fn (traced onReturn) (s, []) = Done (s, []).
Proof. intros Hw Hbody Hfuel. apply traverseReturns_no_body; assumption. Qed.

Lemma traverseReturns_without_body_witness :
  walksBody methodWithReturn = true
  /\ truthy (get "body" methodWithReturn) = false
  /\ 2 <= 2
  /\ traverseReturns 2 methodWithReturn (traced stopAtTwo) (0, []) = Done (0, []).
Proof.
  split; [reflexivity|]. split; [reflexivity|]. split; [lia|].
  apply (traverseReturns_without_body stopAtTwo methodWithReturn 2 0);
    [reflexivity | reflexivity | lia].
Defined.

(** ** The first token in a line, in closed form *)

Import TokenOrder.

Lemma startsIncrease_sorted l :
  startsIncrease l = true -> StronglySorted startsBefore l.
Proof.
  induction l as [|a l IH]; intros Hinc; [constructor|].
  destruct l as [|b l]; [constructor; constructor|].
  cbn [startsIncrease] in Hinc. apply andb_prop in Hinc as [Hab Hinc].
  apply Nat.ltb_lt in Hab. specialize (IH Hinc). constructor; [exact IH|].
  constructor; [exact Hab|].
  apply StronglySorted_inv in IH as [_ Hb].
  eapply Forall_impl; [exact Hb|]. unfold startsBefore. intros c Hc. lia.
Qed.

Lemma sorted_around (l1 : list Token.t) t l2 :
  StronglySorted startsBefore (l1 ++ t :: l2) ->
  Forall (fun a => startsBefore a t) l1 /\ Forall (startsBefore t) l2.
Proof.
  induction l1 as [|a l1 IH]; cbn [app]; intros Hs.
  - apply StronglySorted_inv in Hs as [_ Hs]. split; [constructor|exact Hs].
  - apply StronglySorted_inv in Hs as [Hs Ha]. destruct (IH Hs) as [H1 H2].
    split; [|exact H2]. constructor; [|exact H1].
    rewrite Forall_forall in Ha. apply Ha. apply list_elem_of_In, in_or_app.
    right. left. reflexivity.
Qed.

(** The last element that passes a test, and what comes after it. *)
Lemma last_filter_split {A} (p : A -> bool) l t :
  last (List.filter p l) = Some t ->
  exists l1 l2, l = l1 ++ t :: l2 /\ p t = true /\ List.filter p l2 = [].
Proof.
  induction l as [|x l IH]; [discriminate|].
  cbn [List.filter]. destruct (List.filter p l) as [|y ys] eqn:Hrest.
  - destruct (p x) eqn:Hx; [|discriminate]. intros [= <-].
    exists [], l. auto.
  - intros Hlast.
    assert (Hlast' : last (y :: ys) = Some t).
    { destruct (p x); [exact Hlast | exact Hlast]. }
    destruct (IH Hlast') as (l1 & l2 & -> & Ht & Hl2).
    exists (x :: l1), l2. auto.
Qed.

Lemma filter_nil_weaker {A} (p q : A -> bool) l :
  (forall x, q x = true -> p x = true) ->
  List.filter p l = [] -> List.filter q l = [].
Proof.
  intros Hqp. induction l as [|x l IH]; [reflexivity|]. cbn [List.filter].
  destruct (p x) eqn:Hp; [discriminate|]. intros Hl.
  destruct (q x) eqn:Hq; [rewrite (Hqp x Hq) in Hp; discriminate|]. exact (IH Hl).
Qed.

Lemma firstNodeInLineFrom_closed sourceCode range :
  startsIncrease (tokens sourceCode) = true ->
  firstNodeInLineFrom sourceCode range =
  match lastSolidBefore sourceCode (fst range) with
  | Some t => Done t
  | None => Thrown "TypeError"
  end.
Proof.
  intros Hinc. apply startsIncrease_sorted in Hinc.
  funelim (firstNodeInLineFrom sourceCode range).
  - (* a token before *)
    clear H0 Heqcall.
    match goal with
    | Hb : getTokenBefore _ _ = Some ?t |- _ => rename t into tok
    end.
    unfold getTokenBefore in Hbefore.
    apply last_filter_split in Hbefore as (l1 & l2 & Htokens & Hlt & Hl2).
    specialize (H Hinc).
    rewrite Htokens in Hinc. destruct (sorted_around _ _ _ Hinc) as [Hpre Hpost].
    unfold lastSolidBefore in *. rewrite Htokens in H |- *.
    rewrite !List.filter_app in *. cbn [List.filter] in *.
    rewrite (filter_nil_weaker _ _ l2
               (fun x Hx => proj1 (andb_prop _ _ Hx)) Hl2).
    rewrite Hlt. cbn [andb].
    destruct (isBlankJSXText tok) eqn:Hblank; cbn [negb].
    + rewrite H. rewrite Nat.ltb_irrefl. cbn [andb].
      assert (Hpost' : List.filter
                (fun t => (fst (Token.range t) <? fst (Token.range tok))
                          && negb (isBlankJSXText t)) l2 = []).
      { clear -Hpost. induction l2 as [|x l2 IH]; [reflexivity|].
        apply Forall_cons in Hpost as [Hx Hpost]. cbn [List.filter].
        unfold startsBefore in Hx.
        replace (fst (Token.range x) <? fst (Token.range tok)) with false
          by (symmetry; apply Nat.ltb_ge; lia).
        exact (IH Hpost). }
      rewrite Hpost', !app_nil_r.
      enough (Hsame :
        List.filter (fun t => (fst (Token.range t) <? fst (Token.range tok))
                              && negb (isBlankJSXText t)) l1
        = List.filter (fun t => (fst (Token.range t) <? fst range)
                                && negb (isBlankJSXText t)) l1)
        by (rewrite Hsame; reflexivity).
      apply filter_ext_in. intros x Hx.
      rewrite Forall_forall in Hpre. specialize (Hpre x (proj2 (list_elem_of_In _ _) Hx)).
      unfold startsBefore in Hpre. apply Nat.ltb_lt in Hlt.
      replace (fst (Token.range x) <? fst (Token.range tok)) with true
        by (symmetry; apply Nat.ltb_lt; lia).
      replace (fst (Token.range x) <? fst range) with true
        by (symmetry; apply Nat.ltb_lt; lia).
      reflexivity.
    + rewrite last_snoc. reflexivity.
  - (* no token before *)
    clear -e. unfold getTokenBefore in e. unfold lastSolidBefore.
    apply last_None in e as Hnil.
    rewrite (filter_nil_weaker _ _ _ (fun x Hx => proj1 (andb_prop _ _ Hx)) Hnil).
    reflexivity.
Qed.





(** ** [isParenthesized] *)

Import Parenthesized.

Lemma head_filter_split {A} (p : A -> bool) l t :
  head (List.filter p l) = Some t ->
  exists l1 l2, l = l1 ++ t :: l2 /\ p t = true /\ List.filter p l1 = [].
Proof.
  induction l as [|x l IH]; [discriminate|].
  cbn [List.filter]. destruct (p x) eqn:Hx.
  - intros [= <-]. exists [], l. auto.
  - intros Hhead. destruct (IH Hhead) as (l1 & l2 & -> & Ht & Hl1).
    exists (x :: l1), l2. cbn [List.filter app]. rewrite Hx. auto.
Qed.

Lemma filter_all {A} (p : A -> bool) l :
  Forall (fun x => p x = true) l -> List.filter p l = l.
Proof.
  induction 1 as [|x l Hx _ IH]; [reflexivity|].
  cbn [List.filter]. rewrite Hx, IH. reflexivity.
Qed.

Lemma filter_none {A} (p : A -> bool) l :
  Forall (fun x => p x = false) l -> List.filter p l = [].
Proof.
  induction 1 as [|x l Hx _ IH]; [reflexivity|].
  cbn [List.filter]. rewrite Hx. exact IH.
Qed.

Lemma filter_nil_none {A} (p : A -> bool) l :
  List.filter p l = [] -> Forall (fun x => p x = false) l.
Proof.
  induction l as [|x l IH]; [constructor|]. cbn [List.filter].
  destruct (p x) eqn:Hx; [discriminate|]. intros Hl. constructor; auto.
Qed.

(** In a stream in source order the tokens before a token are those that
    start before it. *)
Lemma sorted_prefix (l1 : list Token.t) t l2 :
  StronglySorted startsBefore (l1 ++ t :: l2) ->
  List.filter (fun x => fst (Token.range x) <? fst (Token.range t)) (l1 ++ t :: l2)
  = l1.
Proof.
  intros Hs. destruct (sorted_around _ _ _ Hs) as [Hpre Hpost].
  rewrite List.filter_app. cbn [List.filter]. rewrite Nat.ltb_irrefl.
  rewrite filter_all, filter_none, app_nil_r; [reflexivity| |].
  - eapply Forall_impl; [exact Hpost|]. unfold startsBefore. intros x Hx.
    apply Nat.ltb_ge. lia.
  - eapply Forall_impl; [exact Hpre|]. unfold startsBefore. intros x Hx.
    apply Nat.ltb_lt. exact Hx.
Qed.

Lemma isParenthesized_wrapped (sourceCode : SourceCode) (node : Node.t) :
  startsIncrease (tokens sourceCode) = true ->
  fst (Node.range node) <= snd (Node.range node) ->
  isParenthesized sourceCode node = true
  <-> wrappedInParens (tokens sourceCode) (Node.range node).
Proof.
  intros Hinc Hrange. apply startsIncrease_sorted in Hinc.
  destruct (Node.range node) as [ns ne] eqn:Hnr. cbn [fst snd] in *.
  unfold isParenthesized, wrappedInParens, getTokenBefore, getTokenAfter.
  rewrite Hnr. cbn [fst snd]. split.
  - destruct (last _) as [lp|] eqn:Hlast; [|discriminate].
    destruct (head _) as [rp|] eqn:Hhead; [|discriminate].
    intros Hall. apply andb_prop in Hall as [Hall Hnext].
    apply andb_prop in Hall as [Hall Hclose].
    apply andb_prop in Hall as [Hopen Hprev].
    apply String.eqb_eq in Hopen, Hclose. apply Nat.leb_le in Hprev, Hnext.
    apply last_filter_split in Hlast as (l1 & l2 & Htokens & Hlp & Hl2).
    apply head_filter_split in Hhead as (m1 & m2 & Htokens' & Hrp & Hm1).
    apply Nat.ltb_lt in Hlp. apply Nat.leb_le in Hrp.
    apply filter_nil_none in Hl2, Hm1.
    (* the closing token lies after the opening one *)
    assert (Hin : In rp l2).
    { assert (Hrp_in : In rp (l1 ++ lp :: l2)).
      { rewrite <- Htokens, Htokens'. apply in_or_app. right. left. reflexivity. }
      rewrite Htokens in Hinc. destruct (sorted_around _ _ _ Hinc) as [Hpre _].
      apply in_app_or in Hrp_in as [Hbad|[->|Hok]]; [|lia|exact Hok].
      rewrite Forall_forall in Hpre.
      specialize (Hpre rp (proj2 (list_elem_of_In _ _) Hbad)).
      unfold startsBefore in Hpre. lia. }
    apply in_split in Hin as (inner & post & ->).
    exists l1, lp, inner, rp, post. repeat split; try assumption.
    (* the tokens in between start inside the range *)
    assert (Hm1_eq : m1 = l1 ++ lp :: inner).
    { rewrite Htokens in Htokens', Hinc.
      rewrite <- (sorted_prefix m1 rp m2) by (rewrite <- Htokens'; exact Hinc).
      rewrite <- Htokens'.
      replace (l1 ++ lp :: inner ++ rp :: post)
        with ((l1 ++ lp :: inner) ++ rp :: post) in *
        by (rewrite <- app_assoc; reflexivity).
      rewrite sorted_prefix by exact Hinc. reflexivity. }
    subst m1. apply Forall_app in Hm1 as [_ Hm1]. apply Forall_cons in Hm1 as [_ Hm1].
    apply Forall_app in Hl2 as [Hl2 _].
    apply Forall_forall. intros x Hx.
    rewrite Forall_forall in Hm1, Hl2. specialize (Hm1 x Hx). specialize (Hl2 x Hx).
    cbn beta in Hm1, Hl2. apply Nat.leb_gt in Hm1. apply Nat.ltb_ge in Hl2. lia.
  - intros (pre & lp & inner & rp & post & Htokens & Hopen & Hclose & Hlp & Hprev
            & Hinner & Hrp).
    rewrite Htokens in Hinc |- *.
    destruct (sorted_around _ _ _ Hinc) as [Hpre Hafter].
    apply Forall_app in Hafter as [_ Hafter]. apply Forall_cons in Hafter as [Hlprp _].
    assert (Hinc' : StronglySorted startsBefore ((pre ++ lp :: inner) ++ rp :: post))
      by (rewrite <- app_assoc; exact Hinc).
    destruct (sorted_around _ _ _ Hinc') as [_ Hpost].
    unfold startsBefore in *.
    (* the token before *)
    assert (Hlast : last (List.filter (fun t => fst (Token.range t) <? ns)
                            (pre ++ lp :: inner ++ rp :: post)) = Some lp).
    { rewrite List.filter_app. cbn [List.filter].
      replace (fst (Token.range lp) <? ns) with true
        by (symmetry; apply Nat.ltb_lt; lia).
      rewrite (filter_none _ (inner ++ rp :: post)), last_snoc; [reflexivity|].
      apply Forall_app. split; [|constructor].
      - eapply Forall_impl; [exact Hinner|]. intros x [Hx _]. apply Nat.ltb_ge. lia.
      - apply Nat.ltb_ge. lia.
      - eapply Forall_impl; [exact Hpost|]. intros x Hx. cbv beta in Hx.
        apply Nat.ltb_ge. lia. }
    (* the token after *)
    assert (Hhead : head (List.filter (fun t => ne <=? fst (Token.range t))
                            (pre ++ lp :: inner ++ rp :: post)) = Some rp).
    { rewrite List.filter_app, (filter_none _ pre). 2:{
        eapply Forall_impl; [exact Hpre|]. intros x Hx. cbv beta in Hx.
        apply Nat.leb_gt. lia. }
      cbn [List.filter app].
      replace (ne <=? fst (Token.range lp)) with false
        by (symmetry; apply Nat.leb_gt; lia).
      rewrite List.filter_app, (filter_none _ inner). 2:{
        eapply Forall_impl; [exact Hinner|]. intros x [_ Hx]. apply Nat.leb_gt. lia. }
      cbn [List.filter app].
      replace (ne <=? fst (Token.range rp)) with true
        by (symmetry; apply Nat.leb_le; lia).
      reflexivity. }
    rewrite Hlast, Hhead, Hopen, Hclose. cbn [String.eqb andb].
    replace (snd (Token.range lp) <=? ns) with true by (symmetry; apply Nat.leb_le; lia).
    replace (ne <=? fst (Token.range rp)) with true by (symmetry; apply Nat.leb_le; lia).
    reflexivity.
Qed.

(** X13.  In a token stream in source order, [isParenthesized] holds
    exactly when the stream reads: some tokens, a [(] that ends at or before
    the node, the tokens that start inside the node's range, a [)], some
    tokens.  Only the two tokens around the node are looked at, not whether
    they belong together. *)
Theorem isParenthesized_iff_wrapped (sourceCode : SourceCode) (node : Node.t) :
  startsIncrease (tokens sourceCode) = true ->
  fst (Node.range node) <= snd (Node.range node) ->
  isParenthesized sourceCode node = true
  <-> wrappedInParens (tokens sourceCode) (Node.range node).
Proof. apply isParenthesized_wrapped. Qed.

(** In [f(a)] the argument [a] counts as parenthesized. *)
Lemma isParenthesized_iff_wrapped_witness :
  startsIncrease (tokens callWithArgument) = true
  /\ fst (Node.range callWithArgument_argument)
     <= snd (Node.range callWithArgument_argument)
  /\ isParenthesized callWithArgument callWithArgument_argument = true
  /\ wrappedInParens (tokens callWithArgument) (Node.range callWithArgument_argument).
Proof.
  split; [reflexivity|]. split; [cbn; lia|]. split; [reflexivity|].
  apply (proj1 (isParenthesized_iff_wrapped callWithArgument callWithArgument_argument
                  eq_refl (le_S _ _ (le_n 2)))).
  reflexivity.
Defined.

(** ** Reports and fixes of [dot-location] *)

Import ESLint DotLocation.

Lemma string_app_nil_r (s : string) : s +:+ "" = s.
Proof.
  induction s as [|c s IH]; [reflexivity|].
  change (String c (s +:+ "") = String c s). f_equal. exact IH.
Qed.

Lemma string_app_assoc (a b c : string) : (a +:+ b) +:+ c = a +:+ (b +:+ c).
Proof.
  induction a as [|x a IH]; [reflexivity|].
  change (String x ((a +:+ b) +:+ c) = String x (a +:+ (b +:+ c))). f_equal. exact IH.
Qed.

Lemma slice_empty n s : SourceCodeFixer.slice n n s = "".
Proof.
  unfold SourceCodeFixer.slice. rewrite Nat.sub_diag.
  revert s. induction n as [|n IH]; intros [|c s]; try reflexivity.
  cbn [String.substring]. apply IH.
Qed.

(** What [checkDotLocation] does when the dot is to be on the property's
    line. *)
Lemma checkDotLocation_onProperty context node :
  onObject context = false ->
  checkDotLocation context node =
  match getTokenBefore (sourceCode context)
          (Node.range (MemberExpression.property node)) with
  | Some dotToken =>
      if isTokenOnSameLine (Some (Token.loc dotToken))
           (Node.loc (MemberExpression.property node))
      then context
      else
        report
          (mkReport node (Token.loc dotToken) expectedDotBeforeProperty
             [ RuleFixer.remove (Token.range dotToken);
               RuleFixer.insertTextBefore
                 (Node.range (MemberExpression.property node))
                 (Token.value dotToken) ])
          context
  | None => context
  end.
Proof.
  intros Hoff. unfold checkDotLocation. cbv zeta. rewrite Hoff.
  destruct (getTokenBefore _ _) as [dotToken|]; cbn [option_map isTokenOnSameLine negb];
    [|reflexivity].
  destruct (Nat.eqb _ _); reflexivity.
Qed.

Lemma checkDotLocation_no_dot context node :
  getTokenBefore (sourceCode context)
    (Node.range (MemberExpression.property node)) = None ->
  checkDotLocation context node = context.
Proof.
  intros Hnone. unfold checkDotLocation. cbv zeta. rewrite Hnone.
  destruct (onObject context); reflexivity.
Qed.

(** X9.  [checkNode] leaves the options and the source code of the context
    as they are, keeps every report made before, and adds at most one
    report. *)
Theorem checkNode_frame (context : Context) (node : MemberExpression.t) :
  options (checkNode context node) = options context
  /\ sourceCode (checkNode context node) = sourceCode context
  /\ exists new,
       reports (checkNode context node) = reports context ++ new
       /\ length new <= 1.
Proof.
  unfold checkNode.
  destruct (String.eqb _ _ && negb _);
    [|repeat split; exists []; rewrite app_nil_r; split; [reflexivity | cbn; lia]].
  destruct (onObject context) eqn:Hon.
  - destruct (getTokenBefore (sourceCode context)
                (Node.range (MemberExpression.property node))) as [dot|] eqn:Hdot.
    + destruct (getTokenBefore (sourceCode context) (Token.range dot))
        as [before|] eqn:Hbefore.
      * rewrite (checkDotLocation_onObject _ _ _ _ Hon Hdot Hbefore).
        destruct (isTokenOnSameLine _ _).
        -- repeat split. exists []. rewrite app_nil_r. split; [reflexivity|cbn; lia].
        -- repeat split. eexists. split; [reflexivity|cbn; lia].
      * unfold checkDotLocation. cbv zeta. rewrite Hon, Hdot, Hbefore.
        repeat split. exists []. rewrite app_nil_r. split; [reflexivity|cbn; lia].
    + rewrite (checkDotLocation_no_dot _ _ Hdot).
      repeat split. exists []. rewrite app_nil_r. split; [reflexivity|cbn; lia].
  - rewrite (checkDotLocation_onProperty _ _ Hon).
    destruct (getTokenBefore _ _) as [dot|];
      [destruct (isTokenOnSameLine _ _)|];
      repeat split;
      try (exists []; rewrite app_nil_r; split; [reflexivity|cbn; lia]).
    eexists. split; [reflexivity|cbn; lia].
Qed.

(** X10.  Whenever [checkNode] adds a report, the node is a non-computed
    [MemberExpression] with a token before its property, the dot token; the
    report is for that node, at the dot token's location, with the message
    of the policy in force; and its fix is two edits, the removal of
    exactly the dot token's range and the insertion, at one offset, of the
    dot token's text, with at most one space in front. *)
Theorem report_moves_only_the_dot (context : Context) (node : MemberExpression.t)
    (r : Report) :
  reports (checkNode context node) = reports context ++ [r] ->
  MemberExpression.type node = "MemberExpression"
  /\ MemberExpression.computed node = false
  /\ exists dotToken,
       getTokenBefore (sourceCode context)
         (Node.range (MemberExpression.property node)) = Some dotToken
       /\ DotLocation.node r = node
       /\ loc r = Token.loc dotToken
       /\ messageId r = (if onObject context then expectedDotAfterObject
                         else expectedDotBeforeProperty)
       /\ exists offset inserted,
            (inserted = Token.value dotToken
             \/ inserted = " " +:+ Token.value dotToken)
            /\ (fix_ r = [ RuleFixer.mkFix (offset, offset) inserted;
                           RuleFixer.mkFix (Token.range dotToken) "" ]
                \/ fix_ r = [ RuleFixer.mkFix (Token.range dotToken) "";
                              RuleFixer.mkFix (offset, offset) inserted ]).
Proof.
  unfold checkNode. intros Hreports.
  destruct (String.eqb_spec (MemberExpression.type node) "MemberExpression")
    as [Htype|_]; cbn [andb] in Hreports;
    [|exfalso; exact (reports_not_extended _ _ Hreports)].
  destruct (MemberExpression.computed node) eqn:Hcomputed; cbn [negb] in Hreports;
    [exfalso; exact (reports_not_extended _ _ Hreports)|].
  split; [exact Htype|]. split; [reflexivity|].
  destruct (getTokenBefore (sourceCode context)
              (Node.range (MemberExpression.property node))) as [dot|] eqn:Hdot.
  2:{ rewrite (checkDotLocation_no_dot _ _ Hdot) in Hreports.
      exfalso. exact (reports_not_extended _ _ Hreports). }
  exists dot. split; [reflexivity|].
  destruct (onObject context) eqn:Hon.
  - destruct (getTokenBefore (sourceCode context) (Token.range dot))
      as [before|] eqn:Hbefore.
    + rewrite (checkDotLocation_onObject _ _ _ _ Hon Hdot Hbefore) in Hreports.
      destruct (isTokenOnSameLine _ _);
        [exfalso; exact (reports_not_extended _ _ Hreports)|].
      cbn [report reports] in Hreports. apply app_inv_head in Hreports.
      injection Hreports as <-. cbn [DotLocation.node loc messageId fix_].
      repeat split. exists (snd (Token.range before)). eexists.
      split; [|left; reflexivity].
      destruct (String.prefix "." (Token.value dot)
                && isDecimalIntegerNumericToken before); [right|left]; reflexivity.
    + unfold checkDotLocation in Hreports. cbv zeta in Hreports.
      rewrite Hon, Hdot, Hbefore in Hreports.
      exfalso. exact (reports_not_extended _ _ Hreports).
  - rewrite (checkDotLocation_onProperty _ _ Hon), Hdot in Hreports.
    destruct (isTokenOnSameLine _ _);
      [exfalso; exact (reports_not_extended _ _ Hreports)|].
    cbn [report reports] in Hreports. apply app_inv_head in Hreports.
    injection Hreports as <-. cbn [DotLocation.node loc messageId fix_].
    repeat split.
    exists (fst (Node.range (MemberExpression.property node))), (Token.value dot).
    split; [left; reflexivity | right; reflexivity].
Qed.

Import SourceCodeFixer.

Lemma applyFixes_insert_then_remove original at_ inserted from to :
  at_ <= from -> from <= to ->
  applyFixes original [RuleFixer.mkFix (at_, at_) inserted; RuleFixer.mkFix (from, to) ""]
  = Some (slice 0 at_ original +:+ inserted +:+ slice at_ from original
          +:+ slice to (String.length original) original).
Proof.
  intros H1 H2. unfold applyFixes, sortFixes. cbn [fold_left insertSorted].
  unfold after. cbn [RuleFixer.range fst snd].
  replace (from <? at_) with false by (symmetry; apply Nat.ltb_ge; lia).
  replace (to <? at_) with false by (symmetry; apply Nat.ltb_ge; lia).
  rewrite andb_false_r. cbn [orb joinFixes RuleFixer.range RuleFixer.text fst snd].
  rewrite Nat.ltb_irrefl.
  replace (from <? at_) with false by (symmetry; apply Nat.ltb_ge; lia).
  rewrite slice_empty. cbn [String.append].
  rewrite !string_app_nil_r, !string_app_assoc. reflexivity.
Qed.

Lemma applyFixes_remove_then_insert original from to at_ inserted :
  from <= to -> to <= at_ ->
  applyFixes original [RuleFixer.mkFix (from, to) ""; RuleFixer.mkFix (at_, at_) inserted]
  = Some (slice 0 from original +:+ slice to at_ original +:+ inserted
          +:+ slice at_ (String.length original) original).
Proof.
  intros H1 H2. unfold applyFixes, sortFixes. cbn [fold_left insertSorted].
  unfold after. cbn [RuleFixer.range fst snd].
  replace (at_ <? from) with false by (symmetry; apply Nat.ltb_ge; lia).
  replace (at_ <? to) with false by (symmetry; apply Nat.ltb_ge; lia).
  rewrite andb_false_r. cbn [orb joinFixes RuleFixer.range RuleFixer.text fst snd].
  rewrite Nat.ltb_irrefl.
  replace (at_ <? to) with false by (symmetry; apply Nat.ltb_ge; lia).
  rewrite slice_empty. cbn [String.append].
  rewrite !string_app_nil_r, !string_app_assoc. reflexivity.
Qed.

(** [1], line break, [.toString()]: the one report is of the shape
    above. *)
Lemma report_moves_only_the_dot_witness :
  let context := mkContext [] numberThenDot [] in
  let r := mkReport numberThenDot_member
             (Token.loc (token "Punctuator" "." 2 3 2 0)) expectedDotAfterObject
             [RuleFixer.mkFix (1, 1) " ."; RuleFixer.mkFix (2, 3) ""] in
  reports (checkNode context numberThenDot_member) = reports context ++ [r]
  /\ exists dotToken,
       getTokenBefore numberThenDot (3, 11) = Some dotToken
       /\ loc r = Token.loc dotToken.
Proof.
  intros context r.
  assert (Hr : reports (checkNode context numberThenDot_member)
               = reports context ++ [r]) by reflexivity.
  split; [exact Hr|].
  destruct (report_moves_only_the_dot context numberThenDot_member r Hr)
    as (_ & _ & dotToken & Hdot & _ & Hloc & _).
  exists dotToken. split; [exact Hdot | exact Hloc].
Defined.

(** X11.  When the dot is moved up to the object's line and the token
    before the dot ends at or before the dot, the fix applies, and the new
    text is the old one up to the end of that token, then the dot's text,
    with a space in front in the numeric case, then what stood between the
    token and the dot, then what stood after the dot. *)
Theorem object_fix_text (context : Context) (node : MemberExpression.t)
    (dotToken tokenBeforeDot : Token.t) :
  onObject context = true ->
  MemberExpression.type node = "MemberExpression" ->
  MemberExpression.computed node = false ->
  getTokenBefore (sourceCode context)
    (Node.range (MemberExpression.property node)) = Some dotToken ->
  getTokenBefore (sourceCode context) (Token.range dotToken) = Some tokenBeforeDot ->
  isTokenOnSameLine (Some (Token.loc tokenBeforeDot)) (Token.loc dotToken) = false ->
  snd (Token.range tokenBeforeDot) <= fst (Token.range dotToken) ->
  fst (Token.range dotToken) <= snd (Token.range dotToken) ->
  exists r,
    reports (checkNode context node) = reports context ++ [r]
    /\ fixedText context r =
       Some (slice 0 (snd (Token.range tokenBeforeDot)) (text (sourceCode context))
             +:+ ((if String.prefix "." (Token.value dotToken)
                      && isDecimalIntegerNumericToken tokenBeforeDot
                   then " " else "") +:+ Token.value dotToken)
             +:+ slice (snd (Token.range tokenBeforeDot))
                       (fst (Token.range dotToken)) (text (sourceCode context))
             +:+ slice (snd (Token.range dotToken))
                       (String.length (text (sourceCode context)))
                       (text (sourceCode context))).
Proof.
  intros Hon Htype Hcomputed Hdot Hbefore Hline Hgap Hrange.
  rewrite (checkNode_member _ _ Htype Hcomputed).
  rewrite (checkDotLocation_onObject _ _ _ _ Hon Hdot Hbefore), Hline.
  eexists. split; [reflexivity|].
  unfold fixedText. cbn [fix_ RuleFixer.insertTextAfter RuleFixer.remove].
  destruct (Token.range dotToken) as [from to]. cbn [fst snd] in *.
  apply applyFixes_insert_then_remove; assumption.
Qed.

(** [1], line break, [.toString()] becomes [1 .], line break,
    [toString()]. *)
Lemma object_fix_text_witness :
  let context := mkContext [] numberThenDot [] in
  onObject context = true
  /\ getTokenBefore numberThenDot (3, 11) = Some (token "Punctuator" "." 2 3 2 0)
  /\ getTokenBefore numberThenDot (2, 3) = Some (token "Numeric" "1" 0 1 1 0)
  /\ exists r,
       reports (checkNode context numberThenDot_member) = [r]
       /\ fixedText context r = Some ("1 ." +:+ nl +:+ "toString()").
Proof.
  intros context. split; [reflexivity|]. split; [reflexivity|]. split; [reflexivity|].
  destruct (object_fix_text context numberThenDot_member
              (token "Punctuator" "." 2 3 2 0) (token "Numeric" "1" 0 1 1 0)
              eq_refl eq_refl eq_refl eq_refl eq_refl eq_refl
              (le_S _ _ (le_n 1)) (le_S _ _ (le_n 2))) as (r & Hr & Htext).
  exists r. split; [exact Hr | exact Htext].
Defined.

(** X12.  When the dot is moved down to the property's line and the dot
    token ends at or before the property, the fix applies, and the new text
    is the old one up to the dot, then what stood between the dot and the
    property, then the dot's text, then the property and what follows. *)
Theorem property_fix_text (context : Context) (node : MemberExpression.t)
    (dotToken : Token.t) :
  onObject context = false ->
  MemberExpression.type node = "MemberExpression" ->
  MemberExpression.computed node = false ->
  getTokenBefore (sourceCode context)
    (Node.range (MemberExpression.property node)) = Some dotToken ->
  isTokenOnSameLine (Some (Token.loc dotToken))
    (Node.loc (MemberExpression.property node)) = false ->
  fst (Token.range dotToken) <= snd (Token.range dotToken) ->
  snd (Token.range dotToken) <= fst (Node.range (MemberExpression.property node)) ->
  exists r,
    reports (checkNode context node) = reports context ++ [r]
    /\ fixedText context r =
       Some (slice 0 (fst (Token.range dotToken)) (text (sourceCode context))
             +:+ slice (snd (Token.range dotToken))
                       (fst (Node.range (MemberExpression.property node)))
                       (text (sourceCode context))
             +:+ Token.value dotToken
             +:+ slice (fst (Node.range (MemberExpression.property node)))
                       (String.length (text (sourceCode context)))
                       (text (sourceCode context))).
Proof.
  intros Hoff Htype Hcomputed Hdot Hline Hrange Hgap.
  rewrite (checkNode_member _ _ Htype Hcomputed).
  rewrite (checkDotLocation_onProperty _ _ Hoff), Hdot, Hline.
  eexists. split; [reflexivity|].
  unfold fixedText. cbn [fix_ RuleFixer.insertTextBefore RuleFixer.remove].
  destruct (Token.range dotToken) as [from to]. cbn [fst snd] in *.
  apply applyFixes_remove_then_insert; assumption.
Qed.

(** [foo.], line break, [bar()] becomes [foo], line break, [.bar()]. *)
Lemma property_fix_text_witness :
  let context := mkContext ["property"] dotOnObjectLine [] in
  onObject context = false
  /\ getTokenBefore dotOnObjectLine (5, 8) = Some (token "Punctuator" "." 3 4 1 3)
  /\ exists r,
       reports (checkNode context dotOnObjectLine_member) = [r]
       /\ fixedText context r = Some ("foo" +:+ nl +:+ ".bar()").
Proof.
  intros context. split; [reflexivity|]. split; [reflexivity|].
  destruct (property_fix_text context dotOnObjectLine_member
              (token "Punctuator" "." 3 4 1 3)
              eq_refl eq_refl eq_refl eq_refl eq_refl
              (le_S _ _ (le_n 3)) (le_S _ _ (le_n 4))) as (r & Hr & Htext).
  exists r. split; [exact Hr | exact Htext].
Defined.
